(** * Red Maker IoT backend: activation codes, devices and telemetry

    A shallow embedding of [src/app.py] (FastAPI handlers over three
    SQLAlchemy tables) and the properties of its activation and ingestion
    paths.

    Modelling choices, all read off the source:

    - The three tables are lists of rows in insertion order.  Rows are never
      deleted, so a row's position plays the role of its autoincrement
      primary key [id], and [.filter(...).first()] is the first row of the
      list that satisfies the filter.
    - A [datetime] is an integer number of microseconds.  Every call of
      [datetime.utcnow()] is a separate reading of the wall clock: a handler
      receives a [Clock], and its k-th reading (in program order, column
      defaults included: they are evaluated when the row is inserted) is
      [clk k].
    - [db.add] and attribute assignments only queue writes in the session;
      [db.commit()] flushes them inside one transaction of the store.  A
      transaction is all-or-nothing: when a statement raises (a UNIQUE
      constraint, or a failure of the store itself, given as a [Fault])
      nothing of it is kept, and the handler's [except Exception] branch
      calls [db.rollback()] and answers 500.
    - The handlers are given twice.  [activate_device],
      [receive_sensor_data] and [create_activation_code] fail only in the
      flush and in COMMIT.  Their [_io] versions let any one access of the
      call fail: the SELECTs of the lookups before the commit and, after it,
      the reload of the row the response is built from (the session expires
      its rows on commit).  The first are the second under the failures of
      the flush and of COMMIT.
    - [secrets.token_urlsafe(48)] is an input of [activate_device].
    - [str.upper] is a parameter of the development ([upper]); the one
      property used of it, and only where stated, is idempotence. *)

From Stdlib Require Import ZArith QArith String Ascii.
From stdpp Require Import base option list strings sorting.

Local Open Scope string_scope.
Local Open Scope Z_scope.

(** ** Data model *)

(** [datetime]: microseconds since the epoch. *)
Definition DateTime := Z.

(** The k-th [datetime.utcnow()] made while serving one request. *)
Definition Clock := nat → DateTime.

(** [float] payloads (temperatura, humedad): stored and returned, never
    computed with. *)
Definition Float := Q.

Module ActivationCode.
Record t := mk {
  code : string;
  sede_id : string;
  sede_nombre : string;
  is_used : bool;
  used_by_mac : option string;
  used_at : option DateTime;
  created_at : DateTime
}.
End ActivationCode.

Module Device.
Record t := mk {
  mac_address : string;
  sede_id : string;
  sede_nombre : string;
  api_key : string;
  activated_at : DateTime;
  last_seen : DateTime
}.
End Device.

Module SensorData.
Record t := mk {
  mac_address : string;
  temperatura : Float;
  humedad : Float;
  timestamp : DateTime
}.
End SensorData.

(** The database: one list per table. *)
Record DB := mkDB {
  activation_codes : list ActivationCode.t;
  devices : list Device.t;
  sensor_data : list SensorData.t
}.

Definition empty_db : DB := mkDB [] [] [].

(** Pydantic request bodies. *)
Module ActivateRequest.
Record t := mk {
  code : string;
  mac_address : string
}.
End ActivateRequest.

Module UpdateRequest.
Record t := mk {
  temperatura : Float;
  humedad : Float
}.
End UpdateRequest.

Module CreateCodeRequest.
Record t := mk {
  code : string;
  sede_id : string;
  sede_nombre : string
}.
End CreateCodeRequest.

(** Handler results: the returned JSON body, or the [HTTPException] raised. *)
Inductive Response (A : Type) :=
| Ok (body : A)
| HTTPException (status_code : nat) (detail : string).
Arguments Ok {A} body.
Arguments HTTPException {A} status_code detail.

Record ActivateBody := mkActivateBody {
  ab_sede_id : string;
  ab_sede_nombre : string;
  ab_api_key : string;
  ab_message : string
}.

Record UpdateBody := mkUpdateBody {
  ub_message : string;
  ub_sede : string;
  ub_mac_address : string;
  ub_timestamp : DateTime
}.

Record CreateCodeBody := mkCreateCodeBody {
  cb_code : string;
  cb_sede_nombre : string;
  cb_message : string
}.

(** ** Queries *)

(** [db.query(ActivationCode).filter(ActivationCode.code == k).first()] *)
Definition query_code (db : DB) (k : string) : option (nat * ActivationCode.t) :=
  list_find (λ c, ActivationCode.code c = k) (activation_codes db).

(** [db.query(Device).filter(Device.mac_address == mac).first()] *)
Definition query_device_by_mac (db : DB) (mac : string) : option (nat * Device.t) :=
  list_find (λ d, Device.mac_address d = mac) (devices db).

(** [db.query(Device).filter(Device.api_key == key).first()] *)
Definition query_device_by_key (db : DB) (key : string) : option (nat * Device.t) :=
  list_find (λ d, Device.api_key d = key) (devices db).

(** [db.query(SensorData).count()] *)
Definition total_readings (db : DB) : nat := length (sensor_data db).

(** ** The session: queued writes and their transaction *)

Inductive Statement :=
| InsertCode (c : ActivationCode.t)
| InsertDevice (d : Device.t)
| InsertSensorData (r : SensorData.t)
| MarkUsed (i : nat) (mac : string) (now : DateTime)
| TouchLastSeen (i : nat) (now : DateTime).

(** What the store raises. *)
Inductive Exception :=
| IntegrityError (constraint : string)
| OperationalError (msg : string).

Definition str (e : Exception) : string :=
  match e with
  | IntegrityError c => "UNIQUE constraint failed: " +:+ c
  | OperationalError m => m
  end.

(** A failure of the store itself: the statement (counted from 0 within the
    flush, the final COMMIT included) at which it raises, and its message. *)
Definition Fault := option (nat * string).

Definition next_fault (f : Fault) : Fault :=
  match f with
  | Some (S k, m) => Some (k, m)
  | _ => None
  end.

Definition mark_used (c : ActivationCode.t) (mac : string) (now : DateTime)
  : ActivationCode.t :=
  ActivationCode.mk (ActivationCode.code c) (ActivationCode.sede_id c)
    (ActivationCode.sede_nombre c) true (Some mac) (Some now)
    (ActivationCode.created_at c).

Definition touch_last_seen (d : Device.t) (now : DateTime) : Device.t :=
  Device.mk (Device.mac_address d) (Device.sede_id d) (Device.sede_nombre d)
    (Device.api_key d) (Device.activated_at d) now.

(** One statement against the working copy of the transaction; the UNIQUE
    columns are [activation_codes.code], [devices.mac_address] and
    [devices.api_key]. *)
Definition apply_write (db : DB) (w : Statement) : Exception + DB :=
  match w with
  | InsertCode c =>
      match query_code db (ActivationCode.code c) with
      | Some _ => inl (IntegrityError "activation_codes.code")
      | None => inr (mkDB (activation_codes db ++ [c]) (devices db) (sensor_data db))
      end
  | InsertDevice d =>
      match query_device_by_mac db (Device.mac_address d) with
      | Some _ => inl (IntegrityError "devices.mac_address")
      | None =>
          match query_device_by_key db (Device.api_key d) with
          | Some _ => inl (IntegrityError "devices.api_key")
          | None =>
              inr (mkDB (activation_codes db) (devices db ++ [d]) (sensor_data db))
          end
      end
  | InsertSensorData r =>
      inr (mkDB (activation_codes db) (devices db) (sensor_data db ++ [r]))
  | MarkUsed i mac now =>
      inr (mkDB (alter (λ c, mark_used c mac now) i (activation_codes db))
                (devices db) (sensor_data db))
  | TouchLastSeen i now =>
      inr (mkDB (activation_codes db)
                (alter (λ d, touch_last_seen d now) i (devices db))
                (sensor_data db))
  end.

(** The body of the transaction: the queued statements in order, then
    COMMIT.  [inl e]: the statement raised and the transaction is lost. *)
Fixpoint flush (db : DB) (ws : list Statement) (fault : Fault) : Exception + DB :=
  match fault with
  | Some (O, m) => inl (OperationalError m)
  | _ =>
      match ws with
      | [] => inr db
      | w :: ws' =>
          match apply_write db w with
          | inl e => inl e
          | inr db' => flush db' ws' (next_fault fault)
          end
      end
  end.

(** [db.commit()] under [try ... except Exception: db.rollback()]: the new
    database, or the exception with the database as it was. *)
Definition commit (db : DB) (ws : list Statement) (fault : Fault)
  : DB * option Exception :=
  match flush db ws fault with
  | inr db' => (db', None)
  | inl e => (db, Some e)
  end.

(** ** Handlers *)

Section Handlers.

(** Python's [str.upper]. *)
Variable upper : string → string.

(** [f"{activation.used_by_mac}"] *)
Definition format_mac (m : option string) : string :=
  match m with
  | Some mac => mac
  | None => "None"
  end.

(** [POST /api/activate].  [api_key] is what [generate_api_key()] returns
    if it is called.  Clock readings: 0 is [used_at] (the assignment before
    the commit), 1 and 2 are the column defaults [activated_at] and
    [last_seen] of the inserted device. *)
Definition activate_device (db : DB) (request : ActivateRequest.t)
    (api_key : string) (clk : Clock) (fault : Fault)
  : DB * Response ActivateBody :=
  match query_code db (upper (ActivateRequest.code request)) with
  | None => (db, HTTPException 404 "Código de activación no encontrado")
  | Some (i, activation) =>
      if ActivationCode.is_used activation then
        (db, HTTPException 422
               ("Código ya utilizado por " +:+
                format_mac (ActivationCode.used_by_mac activation)))
      else
        match query_device_by_mac db (ActivateRequest.mac_address request) with
        | Some (_, existing_device) =>
            (db, Ok (mkActivateBody (Device.sede_id existing_device)
                       (Device.sede_nombre existing_device)
                       (Device.api_key existing_device)
                       "Dispositivo ya estaba registrado"))
        | None =>
            let device :=
              Device.mk (ActivateRequest.mac_address request)
                (ActivationCode.sede_id activation)
                (ActivationCode.sede_nombre activation)
                api_key (clk 1%nat) (clk 2%nat) in
            match commit db
                    [InsertDevice device;
                     MarkUsed i (ActivateRequest.mac_address request) (clk 0%nat)]
                    fault with
            | (db', None) =>
                (db', Ok (mkActivateBody (ActivationCode.sede_id activation)
                            (ActivationCode.sede_nombre activation)
                            api_key
                            "Dispositivo activado exitosamente"))
            | (db', Some e) =>
                (db', HTTPException 500 ("Error interno: " +:+ str e))
            end
        end
  end.

(** [POST /api/updates].  [x_api_key] is the [X-API-Key] header ([None]
    when absent).  Clock readings: 0 is the assignment to [last_seen], 1 is
    the column default [timestamp] of the inserted row, 2 is the timestamp
    of the response. *)
Definition receive_sensor_data (db : DB) (request : UpdateRequest.t)
    (x_api_key : option string) (clk : Clock) (fault : Fault)
  : DB * Response UpdateBody :=
  match x_api_key with
  | None | Some "" =>
      (db, HTTPException 401 "API Key requerida en header X-API-Key")
  | Some key =>
      match query_device_by_key db key with
      | None => (db, HTTPException 401 "API Key inválida")
      | Some (i, device) =>
          let sensor_data :=
            SensorData.mk (Device.mac_address device)
              (UpdateRequest.temperatura request)
              (UpdateRequest.humedad request) (clk 1%nat) in
          match commit db [InsertSensorData sensor_data;
                           TouchLastSeen i (clk 0%nat)] fault with
          | (db', None) =>
              (db', Ok (mkUpdateBody "Datos recibidos correctamente"
                          (Device.sede_nombre device)
                          (Device.mac_address device) (clk 2%nat)))
          | (db', Some e) =>
              (db', HTTPException 500 ("Error interno: " +:+ str e))
          end
      end
  end.

(** [POST /api/activation-codes].  Clock reading 0 is the column default
    [created_at]. *)
Definition create_activation_code (db : DB) (request : CreateCodeRequest.t)
    (clk : Clock) (fault : Fault)
  : DB * Response CreateCodeBody :=
  match query_code db (upper (CreateCodeRequest.code request)) with
  | Some _ => (db, HTTPException 409 "Código ya existe")
  | None =>
      let code :=
        ActivationCode.mk (upper (CreateCodeRequest.code request))
          (CreateCodeRequest.sede_id request)
          (CreateCodeRequest.sede_nombre request) false None None (clk 0%nat) in
      match commit db [InsertCode code] fault with
      | (db', None) =>
          (db', Ok (mkCreateCodeBody (ActivationCode.code code)
                      (ActivationCode.sede_nombre code)
                      "Código de activación creado exitosamente"))
      | (db', Some e) =>
          (db', HTTPException 500 ("Error interno: " +:+ str e))
      end
  end.

(** [init_database()], run when the process starts. *)
Definition sample_codes : list (string * string * string) :=
  [ ("REM-SANPED-2025-EZPZ", "SANPED-001", "San Pedro Centro");
    ("REM-SANPED-2025-TEST", "SANPED-002", "San Pedro Norte");
    ("REM-POSADAS-2025-ABC", "POSADAS-001", "Posadas Centro");
    ("REM-OBERA-2025-XYZ", "OBERA-001", "Oberá Centro");
    ("REM-ELDORADO-2025-123", "ELDORADO-001", "Eldorado Centro") ].

Definition init_database (db : DB) (clk : Clock) (fault : Fault) : DB :=
  match activation_codes db with
  | _ :: _ => db
  | [] =>
      fst (commit db
             (imap (λ k '(c, sid, sn),
                      InsertCode (ActivationCode.mk c sid sn false None None (clk k)))
                   sample_codes)
             fault)
  end.

(** ** The system as a transition system *)

Inductive Call :=
| POST_activate (request : ActivateRequest.t) (api_key : string)
    (clk : Clock) (fault : Fault)
| POST_updates (request : UpdateRequest.t) (x_api_key : option string)
    (clk : Clock) (fault : Fault)
| POST_activation_codes (request : CreateCodeRequest.t)
    (clk : Clock) (fault : Fault)
| Startup (clk : Clock) (fault : Fault)
| GET_readonly.

Definition step (db : DB) (c : Call) : DB :=
  match c with
  | POST_activate request api_key clk fault =>
      fst (activate_device db request api_key clk fault)
  | POST_updates request x_api_key clk fault =>
      fst (receive_sensor_data db request x_api_key clk fault)
  | POST_activation_codes request clk fault =>
      fst (create_activation_code db request clk fault)
  | Startup clk fault => init_database db clk fault
  | GET_readonly => db
  end.

Definition run (db : DB) (calls : list Call) : DB := foldl step db calls.

End Handlers.

(** ** Liveness status shown by the panel *)

Inductive Status := ONLINE | STALE | OFFLINE.

(** The badge text of each status ([admin_panel]). *)
Definition badge (s : Status) : string :=
  match s with
  | ONLINE => "Online"
  | STALE => "Inactivo"
  | OFFLINE => "Offline"
  end.

(** [timedelta.total_seconds()]: microseconds to seconds. *)
Definition total_seconds (delta : Z) : Q := delta # 1000000.

(** The [if time_diff < 600 ... elif time_diff < 3600 ... else] chain. *)
Definition status_of (time_diff : Q) : Status :=
  match time_diff ?= 600 with
  | Lt => ONLINE
  | _ =>
      match time_diff ?= 3600 with
      | Lt => STALE
      | _ => OFFLINE
      end
  end%Q.

(** [(datetime.utcnow() - device.last_seen).total_seconds()] and its badge. *)
Definition device_status (now : DateTime) (device : Device.t) : Status :=
  status_of (total_seconds (now - Device.last_seen device)).

(** ** A concrete [upper]: ASCII case mapping, as [str.upper] acts on ASCII
    strings *)

Definition ascii_upper (c : ascii) : ascii :=
  let n := nat_of_ascii c in
  if ((97 <=? n) && (n <=? 122))%nat then ascii_of_nat (n - 32) else c.

Fixpoint str_upper (s : string) : string :=
  match s with
  | EmptyString => EmptyString
  | String c s' => String (ascii_upper c) (str_upper s')
  end.

(** ** What one call can do to the database *)

(** A freshly created code: unused, with no consumer and no time of use. *)
Definition fresh_code (c : ActivationCode.t) : Prop :=
  ActivationCode.is_used c = false ∧ ActivationCode.used_by_mac c = None ∧
  ActivationCode.used_at c = None.

(** The four ways in which a call changes the tables, and no change. *)
Inductive Effect (db : DB) : DB → Prop :=
| E_none : Effect db db
| E_activated i c d now :
    activation_codes db !! i = Some c →
    ActivationCode.is_used c = false →
    query_device_by_mac db (Device.mac_address d) = None →
    Effect db (mkDB (alter (λ c, mark_used c (Device.mac_address d) now) i
                            (activation_codes db))
                    (devices db ++ [d]) (sensor_data db))
| E_reading i r now :
    Effect db (mkDB (activation_codes db)
                    (alter (λ d, touch_last_seen d now) i (devices db))
                    (sensor_data db ++ [r]))
| E_code c :
    query_code db (ActivationCode.code c) = None →
    fresh_code c →
    Effect db (mkDB (activation_codes db ++ [c]) (devices db) (sensor_data db))
| E_seeded l :
    activation_codes db = [] →
    Forall fresh_code l →
    Effect db (mkDB l (devices db) (sensor_data db)).

(** ** Invariants of the tables *)

(** The usage fields of a code agree: it is used exactly when it has a
    consumer and exactly when it has a time of use. *)
Definition code_inv (c : ActivationCode.t) : Prop :=
  (ActivationCode.is_used c = true ↔ ActivationCode.used_by_mac c ≠ None) ∧
  (ActivationCode.is_used c = true ↔ ActivationCode.used_at c ≠ None).

(** Two device rows that differ at most in [last_seen]. *)
Definition same_device (d d' : Device.t) : Prop :=
  Device.mac_address d' = Device.mac_address d ∧
  Device.sede_id d' = Device.sede_id d ∧
  Device.sede_nombre d' = Device.sede_nombre d ∧
  Device.api_key d' = Device.api_key d ∧
  Device.activated_at d' = Device.activated_at d.

(** ** A small scenario, for the concrete instances of the theorems *)

(** A clock that starts at [t0] and advances by one microsecond per
    reading. *)
Definition tick_from (t0 : DateTime) : Clock := λ k, t0 + Z.of_nat k.
Definition tick : Clock := tick_from 0.

(** Five seconds later. *)
Definition tock : Clock := tick_from 5000000.

Definition req_create : CreateCodeRequest.t :=
  CreateCodeRequest.mk "abc-123" "S1" "Site One".
Definition req_activate : ActivateRequest.t := ActivateRequest.mk "abc-123" "AA:BB:CC".
Definition req_update : UpdateRequest.t := UpdateRequest.mk (43 # 2) (55 # 1).

(** One unused code. *)
Definition db_code : DB :=
  fst (create_activation_code str_upper empty_db req_create tick None).

(** The code redeemed by the device AA:BB:CC, which got the credential KEY1. *)
Definition db_active : DB :=
  fst (activate_device str_upper db_code req_activate "KEY1" tick None).

(** A second, unused code next to the redeemed one. *)
Definition db_two_codes : DB :=
  fst (create_activation_code str_upper db_active
         (CreateCodeRequest.mk "xyz-9" "S2" "Site Two") tick None).

(** The rows of the scenario. *)
Definition code_unused : ActivationCode.t :=
  ActivationCode.mk "ABC-123" "S1" "Site One" false None None 0.
Definition code_xyz : ActivationCode.t :=
  ActivationCode.mk "XYZ-9" "S2" "Site Two" false None None 0.
Definition dev_active : Device.t :=
  Device.mk "AA:BB:CC" "S1" "Site One" "KEY1" 1 2.
Definition req_again : ActivateRequest.t := ActivateRequest.mk "xyz-9" "AA:BB:CC".
Definition req_other : ActivateRequest.t := ActivateRequest.mk "Abc-123" "11:22:33".

(** ** Read-only endpoints *)

(** The body of [GET /api/activation-codes]. *)
Record CodesListing := mkCodesListing {
  cl_total : nat;
  cl_available : nat;
  cl_used : nat;
  cl_codes : list ActivationCode.t
}.

(** [list_activation_codes]: [available] and [used] are the two list
    comprehensions over [is_used]. *)
Definition list_activation_codes (db : DB) : CodesListing :=
  let codes := activation_codes db in
  mkCodesListing (length codes)
    (length (filter (λ c, ActivationCode.is_used c = false) codes))
    (length (filter (λ c, ActivationCode.is_used c = true) codes))
    codes.

(** [ORDER BY timestamp DESC]: [newer x y] when [x] may come before [y]. *)
Definition newer (x y : SensorData.t) : Prop :=
  SensorData.timestamp y ≤ SensorData.timestamp x.

#[global] Instance newer_dec (x y : SensorData.t) : Decision (newer x y) :=
  decide (SensorData.timestamp y ≤ SensorData.timestamp x).

(** [db.query(SensorData).filter(SensorData.mac_address == mac)
      .order_by(SensorData.timestamp.desc())].  The order among rows of equal
    timestamp is the store's choice; a merge sort fixes one. *)
Definition readings_of (db : DB) (mac : string) : list SensorData.t :=
  merge_sort newer (filter (λ r, SensorData.mac_address r = mac) (sensor_data db)).

(** [.limit(limit)], for a limit the driver accepts: SQLite puts no bound on
    the rows when the limit is negative. *)
Definition apply_limit {A : Type} (limit : Z) (l : list A) : list A :=
  if limit <? 0 then l else take (Z.to_nat limit) l.

(** The limit is bound as a parameter of the statement: the driver accepts
    the integers of 64 bits (signed) and raises [OverflowError] on any other,
    which [get_sensor_data] does not catch. *)
Inductive Unhandled := OverflowError.

Definition sqlite_int (n : Z) : bool := (- 2 ^ 63 <=? n) && (n <? 2 ^ 63).

(** The body of [GET /api/sensor-data/{mac_address}]: the identity asked
    for, [total_records] and the entries (temperatura, humedad, timestamp). *)
Record SensorDataBody := mkSensorDataBody {
  sb_mac_address : string;
  sb_total_records : nat;
  sb_data : list (Float * Float * DateTime)
}.

Definition select_sensor_data (db : DB) (mac : string) (limit : Z)
  : Unhandled + list SensorData.t :=
  if sqlite_int limit then inr (apply_limit limit (readings_of db mac))
  else inl OverflowError.

Definition get_sensor_data (db : DB) (mac_address : string) (limit : Z)
  : Unhandled + SensorDataBody :=
  match select_sensor_data db mac_address limit with
  | inl e => inl e
  | inr data =>
      inr (mkSensorDataBody mac_address (length data)
             ((λ d, (SensorData.temperatura d, SensorData.humedad d,
                     SensorData.timestamp d)) <$> data))
  end.

(** [admin_panel]: the three counters of the header. *)
Definition panel_stats (db : DB) : nat * nat * nat :=
  (length (devices db),
   length (filter (λ c, ActivationCode.is_used c = false) (activation_codes db)),
   total_readings db).

(** [admin_panel]: [latest_data[device.mac_address]], the first row of the
    device's readings, newest first. *)
Definition latest_data (db : DB) (mac : string) : option SensorData.t :=
  head (readings_of db mac).

(** One row of the devices table of the panel; [pr_last_data] is [None] where
    the panel prints "Sin datos". *)
Record PanelRow := mkPanelRow {
  pr_status : Status;
  pr_mac_address : string;
  pr_sede_nombre : string;
  pr_last_data : option (Float * Float);
  pr_last_seen : DateTime
}.

Definition panel_row (db : DB) (now : DateTime) (device : Device.t) : PanelRow :=
  mkPanelRow (device_status now device) (Device.mac_address device)
    (Device.sede_nombre device)
    ((λ r, (SensorData.temperatura r, SensorData.humedad r))
       <$> latest_data db (Device.mac_address device))
    (Device.last_seen device).

(** The rows of the devices table; the clock is read once per device. *)
Definition panel_devices (db : DB) (clk : Clock) : list PanelRow :=
  imap (λ k device, panel_row db (clk k) device) (devices db).

(** ** Finer invariants of the tables *)

(** What a call does, with what the inserted rows are made of. *)
Inductive Transition (db : DB) : DB → Prop :=
| T_none : Transition db db
| T_activated i c d now :
    activation_codes db !! i = Some c →
    ActivationCode.is_used c = false →
    query_device_by_mac db (Device.mac_address d) = None →
    query_device_by_key db (Device.api_key d) = None →
    Device.sede_id d = ActivationCode.sede_id c →
    Device.sede_nombre d = ActivationCode.sede_nombre c →
    Transition db (mkDB (alter (λ c, mark_used c (Device.mac_address d) now) i
                                (activation_codes db))
                        (devices db ++ [d]) (sensor_data db))
| T_reading i d r now :
    devices db !! i = Some d →
    SensorData.mac_address r = Device.mac_address d →
    Transition db (mkDB (activation_codes db)
                        (alter (λ d, touch_last_seen d now) i (devices db))
                        (sensor_data db ++ [r]))
| T_code c :
    query_code db (ActivationCode.code c) = None →
    fresh_code c →
    Transition db (mkDB (activation_codes db ++ [c]) (devices db) (sensor_data db))
| T_seeded l :
    activation_codes db = [] →
    Forall fresh_code l →
    NoDup (ActivationCode.code <$> l) →
    Transition db (mkDB l (devices db) (sensor_data db)).

(** Two code rows that differ at most in the usage fields. *)
Definition same_code (c c' : ActivationCode.t) : Prop :=
  ActivationCode.code c' = ActivationCode.code c ∧
  ActivationCode.sede_id c' = ActivationCode.sede_id c ∧
  ActivationCode.sede_nombre c' = ActivationCode.sede_nombre c ∧
  ActivationCode.created_at c' = ActivationCode.created_at c.

(** The UNIQUE columns hold no value twice. *)
Definition unique_columns (db : DB) : Prop :=
  NoDup (ActivationCode.code <$> activation_codes db) ∧
  NoDup (Device.mac_address <$> devices db) ∧
  NoDup (Device.api_key <$> devices db).

(** The code [c] was consumed by the device [d], which carries its site. *)
Definition consumed_by (c : ActivationCode.t) (d : Device.t) : Prop :=
  ActivationCode.is_used c = true ∧
  ActivationCode.used_by_mac c = Some (Device.mac_address d) ∧
  Device.sede_id d = ActivationCode.sede_id c ∧
  Device.sede_nombre d = ActivationCode.sede_nombre c.

(** Used codes and devices correspond. *)
Definition linked (db : DB) : Prop :=
  (∀ c, c ∈ activation_codes db → ActivationCode.is_used c = true →
        ∃ d, d ∈ devices db ∧ consumed_by c d) ∧
  (∀ d, d ∈ devices db → ∃ c, c ∈ activation_codes db ∧ consumed_by c d) ∧
  length (devices db)
  = length (filter (λ c, ActivationCode.is_used c = true) (activation_codes db)).

(** Every reading belongs to a registered device. *)
Definition readings_registered (db : DB) : Prop :=
  ∀ r, r ∈ sensor_data db →
       ∃ d, d ∈ devices db ∧ Device.mac_address d = SensorData.mac_address r.

(** The order of the statuses as time passes. *)
Definition status_rank (s : Status) : nat :=
  match s with
  | ONLINE => 0
  | STALE => 1
  | OFFLINE => 2
  end.

(** [db'] keeps every row of [db] in its place: codes up to their usage
    fields, devices up to [last_seen], readings as they are. *)
Definition extends (db db' : DB) : Prop :=
  (∀ i c, activation_codes db !! i = Some c →
          ∃ c', activation_codes db' !! i = Some c' ∧ same_code c c') ∧
  (∀ j d, devices db !! j = Some d →
          ∃ d', devices db' !! j = Some d' ∧ same_device d d') ∧
  sensor_data db `prefix_of` sensor_data db'.

(** The scenario as a sequence of calls: a code is created and redeemed,
    then one reading arrives. *)
Definition scenario_calls : list Call :=
  [ POST_activation_codes req_create tick None;
    POST_activate req_activate "KEY1" tick None;
    POST_updates req_update (Some "KEY1") tock None ].

(** ** The handlers under a store failure at any access *)

(** A failure of the store at any access of a call: the access, counted from
    0 in the order in which the handler makes them, and the message.  The
    accesses are the SELECTs of the lookups, the statements of the flush,
    COMMIT, and the reload of the row whose attributes the response reads
    after the commit (the session expires its rows on commit).  At most one
    access fails per call. *)
Definition StoreFailure := option (nat * string).

(** The message of the failure when it is access [k] that fails. *)
Definition fails_at (io : StoreFailure) (k : nat) : option string :=
  match io with
  | Some (j, m) => if (j =? k)%nat then Some m else None
  | None => None
  end.

(** The failure as the flush sees it, when the first statement of the flush
    is access [n]. *)
Definition flush_fault (io : StoreFailure) (n : nat) : Fault :=
  match io with
  | Some (j, m) => if (n <=? j)%nat then Some ((j - n)%nat, m) else None
  | None => None
  end.

(** Whether an access before the [n]-th fails. *)
Definition fails_before (io : StoreFailure) (n : nat) : bool :=
  match io with
  | Some (j, _) => (j <? n)%nat
  | None => false
  end.

(** A failure of the flush or of COMMIT as a failure of the call, when the
    flush has [len] statements and its first statement is access [n]. *)
Definition at_flush (n len : nat) (fault : Fault) : StoreFailure :=
  match fault with
  | Some (k, m) => if (k <=? len)%nat then Some ((n + k)%nat, m) else None
  | None => None
  end.

(** [except Exception as e: db.rollback(); raise HTTPException(500, ...)] *)
Definition internal_error {A : Type} (e : Exception) : Response A :=
  HTTPException 500 ("Error interno: " +:+ str e).

Section HandlersIO.

Variable upper : string → string.

(** [POST /api/activate].  Accesses: 0 the SELECT of the code, 1 the SELECT
    of the device, 2 and 3 the INSERT and the UPDATE of the flush, 4 COMMIT,
    5 the reload of [activation] for the response. *)
Definition activate_device_io (db : DB) (request : ActivateRequest.t)
    (api_key : string) (clk : Clock) (io : StoreFailure)
  : DB * Response ActivateBody :=
  match fails_at io 0 with
  | Some m => (db, internal_error (OperationalError m))
  | None =>
      match query_code db (upper (ActivateRequest.code request)) with
      | None => (db, HTTPException 404 "Código de activación no encontrado")
      | Some (i, activation) =>
          if ActivationCode.is_used activation then
            (db, HTTPException 422
                   ("Código ya utilizado por " +:+
                    format_mac (ActivationCode.used_by_mac activation)))
          else
            match fails_at io 1 with
            | Some m => (db, internal_error (OperationalError m))
            | None =>
                match query_device_by_mac db (ActivateRequest.mac_address request) with
                | Some (_, existing_device) =>
                    (db, Ok (mkActivateBody (Device.sede_id existing_device)
                               (Device.sede_nombre existing_device)
                               (Device.api_key existing_device)
                               "Dispositivo ya estaba registrado"))
                | None =>
                    let device :=
                      Device.mk (ActivateRequest.mac_address request)
                        (ActivationCode.sede_id activation)
                        (ActivationCode.sede_nombre activation)
                        api_key (clk 1%nat) (clk 2%nat) in
                    match commit db
                            [InsertDevice device;
                             MarkUsed i (ActivateRequest.mac_address request)
                               (clk 0%nat)]
                            (flush_fault io 2) with
                    | (db', Some e) => (db', internal_error e)
                    | (db', None) =>
                        match fails_at io 5 with
                        | Some m => (db', internal_error (OperationalError m))
                        | None =>
                            (db', Ok (mkActivateBody
                                        (ActivationCode.sede_id activation)
                                        (ActivationCode.sede_nombre activation)
                                        api_key
                                        "Dispositivo activado exitosamente"))
                        end
                    end
                end
            end
      end
  end.

(** [POST /api/updates].  Accesses: 0 the SELECT of the device, 1 and 2 the
    INSERT and the UPDATE of the flush, 3 COMMIT, 4 the reload of [device]
    for the response. *)
Definition receive_sensor_data_io (db : DB) (request : UpdateRequest.t)
    (x_api_key : option string) (clk : Clock) (io : StoreFailure)
  : DB * Response UpdateBody :=
  match x_api_key with
  | None | Some "" =>
      (db, HTTPException 401 "API Key requerida en header X-API-Key")
  | Some key =>
      match fails_at io 0 with
      | Some m => (db, internal_error (OperationalError m))
      | None =>
          match query_device_by_key db key with
          | None => (db, HTTPException 401 "API Key inválida")
          | Some (i, device) =>
              let sensor_data :=
                SensorData.mk (Device.mac_address device)
                  (UpdateRequest.temperatura request)
                  (UpdateRequest.humedad request) (clk 1%nat) in
              match commit db [InsertSensorData sensor_data;
                               TouchLastSeen i (clk 0%nat)]
                           (flush_fault io 1) with
              | (db', Some e) => (db', internal_error e)
              | (db', None) =>
                  match fails_at io 4 with
                  | Some m => (db', internal_error (OperationalError m))
                  | None =>
                      (db', Ok (mkUpdateBody "Datos recibidos correctamente"
                                  (Device.sede_nombre device)
                                  (Device.mac_address device) (clk 2%nat)))
                  end
              end
          end
      end
  end.

(** [POST /api/activation-codes].  Accesses: 0 the SELECT of the code, 1 the
    INSERT of the flush, 2 COMMIT, 3 the reload of [code] for the response. *)
Definition create_activation_code_io (db : DB) (request : CreateCodeRequest.t)
    (clk : Clock) (io : StoreFailure)
  : DB * Response CreateCodeBody :=
  match fails_at io 0 with
  | Some m => (db, internal_error (OperationalError m))
  | None =>
      match query_code db (upper (CreateCodeRequest.code request)) with
      | Some _ => (db, HTTPException 409 "Código ya existe")
      | None =>
          let code :=
            ActivationCode.mk (upper (CreateCodeRequest.code request))
              (CreateCodeRequest.sede_id request)
              (CreateCodeRequest.sede_nombre request)
              false None None (clk 0%nat) in
          match commit db [InsertCode code] (flush_fault io 1) with
          | (db', Some e) => (db', internal_error e)
          | (db', None) =>
              match fails_at io 3 with
              | Some m => (db', internal_error (OperationalError m))
              | None =>
                  (db', Ok (mkCreateCodeBody (ActivationCode.code code)
                              (ActivationCode.sede_nombre code)
                              "Código de activación creado exitosamente"))
              end
          end
      end
  end.

End HandlersIO.

(** The failure of the flush and of COMMIT that leaves the same database as
    the failure [io] of a handler whose flush starts at access [n]. *)
Definition as_fault (io : StoreFailure) (n : nat) : Fault :=
  match io with
  | Some (j, m) => Some ((j - n)%nat, m)
  | None => None
  end.

(** * Proofs *)

(** ** Lists: the first match after an in-place update *)

Section ListFind.
Context {A : Type} (P : A → Prop) `{!∀ x, Decision (P x)}.

(** Updating a row without changing whether it passes the filter leaves
    the position of the first match alone. *)
Lemma list_find_alter_stable (f : A → A) (l : list A) (i : nat) :
  (∀ x, P (f x) ↔ P x) →
  list_find P (alter f i l)
  = (λ '(j, x), (j, if decide (j = i) then f x else x)) <$> list_find P l.
Proof.
  intros Hf. revert i. induction l as [|a l IH]; intros i; [done|].
  destruct i as [|i]; simpl.
  - destruct (decide (P (f a))) as [Hfa|Hfa], (decide (P a)) as [Ha|Ha];
      [done | exfalso; apply Ha, Hf, Hfa | exfalso; apply Hfa, Hf, Ha |].
    destruct (list_find P l) as [[j x]|]; simpl; [|done].
    by destruct (decide (S j = 0%nat)).
  - destruct (decide (P a)); [done|].
    change (list_alter f i l) with (alter f i l). rewrite IH.
    destruct (list_find P l) as [[j x]|]; simpl; [|done].
    destruct (decide (j = i)), (decide (S j = S i)); (done || lia).
Qed.

Lemma list_find_alter_other (f : A → A) (l : list A) (i j : nat) (x : A) :
  (∀ x, P (f x) ↔ P x) → j ≠ i →
  list_find P l = Some (j, x) → list_find P (alter f i l) = Some (j, x).
Proof.
  intros Hf Hne Hl. rewrite list_find_alter_stable, Hl by done. simpl.
  by destruct (decide (j = i)).
Qed.

Lemma list_find_alter_same (f : A → A) (l : list A) (i : nat) (x : A) :
  (∀ x, P (f x) ↔ P x) →
  list_find P l = Some (i, x) → list_find P (alter f i l) = Some (i, f x).
Proof.
  intros Hf Hl. rewrite list_find_alter_stable, Hl by done. simpl.
  by destruct (decide (i = i)).
Qed.

Lemma list_find_lookup (l : list A) (i : nat) (x : A) :
  list_find P l = Some (i, x) → l !! i = Some x.
Proof. by intros (? & _ & _)%list_find_Some. Qed.
End ListFind.

(** ** The transactions of the three handlers *)

(** The transaction of [activate_device]: both statements, or nothing. *)
Lemma commit_activate (db : DB) (d : Device.t) (i : nat) (mac : string)
    (now : DateTime) (fault : Fault) :
  query_device_by_mac db (Device.mac_address d) = None →
  (query_device_by_key db (Device.api_key d) = None ∧
   (∀ k m, fault = Some (k, m) → (3 ≤ k)%nat) ∧
   commit db [InsertDevice d; MarkUsed i mac now] fault
   = (mkDB (alter (λ c, mark_used c mac now) i (activation_codes db))
           (devices db ++ [d]) (sensor_data db), None))
  ∨ (∃ e, ((∃ k m, fault = Some (k, m) ∧ (k < 3)%nat) ∨
           is_Some (query_device_by_key db (Device.api_key d))) ∧
          commit db [InsertDevice d; MarkUsed i mac now] fault = (db, Some e)).
Proof.
  intros Hmac. unfold commit.
  destruct fault as [[[|[|[|k]]] m]|]; simpl; rewrite ?Hmac;
    destruct (query_device_by_key db (Device.api_key d)) as [p|] eqn:Hkey; simpl;
    try (right; eexists; split; [|reflexivity]; first [right; by eexists | left; do 2 eexists; split; [done|lia]]);
    left; (split; [done|]); (split; [|done]); intros ???; simplify_eq; lia.
Qed.

(** The transaction of [receive_sensor_data]. *)
Lemma commit_updates (db : DB) (r : SensorData.t) (i : nat) (now : DateTime)
    (fault : Fault) :
  ((∀ k m, fault = Some (k, m) → (3 ≤ k)%nat) ∧
   commit db [InsertSensorData r; TouchLastSeen i now] fault
   = (mkDB (activation_codes db)
           (alter (λ d, touch_last_seen d now) i (devices db))
           (sensor_data db ++ [r]), None))
  ∨ (∃ k m, fault = Some (k, m) ∧ (k < 3)%nat ∧
            commit db [InsertSensorData r; TouchLastSeen i now] fault
            = (db, Some (OperationalError m))).
Proof.
  unfold commit.
  destruct fault as [[[|[|[|k]]] m]|]; simpl;
    try (right; do 2 eexists; split; [done|]; split; [lia|done]);
    left; (split; [|done]); intros ???; simplify_eq; lia.
Qed.

(** The transaction of [create_activation_code]. *)
Lemma commit_create (db : DB) (c : ActivationCode.t) (fault : Fault) :
  query_code db (ActivationCode.code c) = None →
  ((∀ k m, fault = Some (k, m) → (2 ≤ k)%nat) ∧
   commit db [InsertCode c] fault
   = (mkDB (activation_codes db ++ [c]) (devices db) (sensor_data db), None))
  ∨ (∃ k m, fault = Some (k, m) ∧ (k < 2)%nat ∧
            commit db [InsertCode c] fault = (db, Some (OperationalError m))).
Proof.
  intros Hc. unfold commit.
  destruct fault as [[[|[|k]] m]|]; simpl; rewrite ?Hc;
    try (right; do 2 eexists; split; [done|]; split; [lia|done]);
    left; (split; [|done]); intros ???; simplify_eq; lia.
Qed.

(** ** What one call does to the database *)

Section HandlerFacts.
Variable upper : string → string.

(** [activate_device] on an unused code and an identity without device. *)
Lemma activate_device_new db request api_key clk fault i c :
  query_code db (upper (ActivateRequest.code request)) = Some (i, c) →
  ActivationCode.is_used c = false →
  query_device_by_mac db (ActivateRequest.mac_address request) = None →
  let d := Device.mk (ActivateRequest.mac_address request) (ActivationCode.sede_id c)
             (ActivationCode.sede_nombre c) api_key (clk 1%nat) (clk 2%nat) in
  (query_device_by_key db api_key = None ∧
   (∀ k m, fault = Some (k, m) → (3 ≤ k)%nat) ∧
   activate_device upper db request api_key clk fault
   = (mkDB (alter (λ c, mark_used c (ActivateRequest.mac_address request) (clk 0%nat)) i
                  (activation_codes db))
           (devices db ++ [d]) (sensor_data db),
      Ok (mkActivateBody (ActivationCode.sede_id c)
            (ActivationCode.sede_nombre c) api_key
            "Dispositivo activado exitosamente")))
  ∨ (∃ e, ((∃ k m, fault = Some (k, m) ∧ (k < 3)%nat) ∨
           is_Some (query_device_by_key db api_key)) ∧
          activate_device upper db request api_key clk fault
          = (db, HTTPException 500 ("Error interno: " +:+ str e))).
Proof.
  intros Hc Hu Hm d. unfold activate_device. rewrite Hc, Hu, Hm.
  pose proof (commit_activate db d i (ActivateRequest.mac_address request) (clk 0%nat)
                fault Hm) as Hcommit.
  subst d. destruct Hcommit as [(Hk & Hf & ->)|(e & Hwhy & ->)].
  - left. by split_and!.
  - right. exists e. by split.
Qed.

Lemma activate_device_effect db request api_key clk fault :
  Effect db (fst (activate_device upper db request api_key clk fault)).
Proof.
  destruct (query_code db (upper (ActivateRequest.code request))) as [[i c]|] eqn:Hc;
    [|unfold activate_device; rewrite Hc; constructor].
  destruct (ActivationCode.is_used c) eqn:Hu;
    [unfold activate_device; rewrite Hc, Hu; constructor|].
  destruct (query_device_by_mac db (ActivateRequest.mac_address request)) as [[j d]|] eqn:Hm;
    [unfold activate_device; rewrite Hc, Hu, Hm; constructor|].
  destruct (activate_device_new db request api_key clk fault i c Hc Hu Hm)
    as [(_ & _ & ->)|(e & _ & ->)]; [|constructor].
  simpl. eapply (E_activated db i c (Device.mk _ _ _ _ _ _)); [|done..].
  by eapply list_find_lookup.
Qed.

Lemma receive_sensor_data_effect db request x_api_key clk fault :
  Effect db (fst (receive_sensor_data db request x_api_key clk fault)).
Proof.
  unfold receive_sensor_data.
  destruct x_api_key as [[|a key]|]; try constructor.
  destruct (query_device_by_key db (String a key)) as [[i d]|]; [|constructor].
  destruct (commit_updates db
              (SensorData.mk (Device.mac_address d) (UpdateRequest.temperatura request)
                 (UpdateRequest.humedad request) (clk 1%nat)) i (clk 0%nat) fault)
    as [(_ & ->)|(k & m & _ & _ & ->)]; constructor.
Qed.

Lemma create_activation_code_effect db request clk fault :
  Effect db (fst (create_activation_code upper db request clk fault)).
Proof.
  unfold create_activation_code.
  destruct (query_code db (upper (CreateCodeRequest.code request))) as [p|] eqn:Hc;
    [constructor|].
  destruct (commit_create db
              (ActivationCode.mk (upper (CreateCodeRequest.code request)) (CreateCodeRequest.sede_id request)
                 (CreateCodeRequest.sede_nombre request) false None None (clk 0%nat)) fault Hc)
    as [(_ & ->)|(k & m & _ & _ & ->)]; [|constructor].
  by apply E_code.
Qed.

Lemma init_database_effect db clk fault :
  Effect db (init_database db clk fault).
Proof.
  unfold init_database.
  destruct db as [codes devs sd]; destruct codes as [|c codes]; [|constructor].
  unfold commit.
  destruct fault as [[[|[|[|[|[|[|k]]]]]] m]|]; simpl;
    first [ apply E_none
          | apply (E_seeded (mkDB [] devs sd)); [done|]; repeat constructor ].
Qed.

Lemma step_effect db call : Effect db (step upper db call).
Proof.
  destruct call; simpl;
    auto using activate_device_effect, receive_sensor_data_effect,
      create_activation_code_effect, init_database_effect, E_none.
Qed.
End HandlerFacts.

(** ** Invariants along calls *)

Lemma same_device_refl d : same_device d d.
Proof. by repeat split. Qed.

Lemma same_device_trans d1 d2 d3 :
  same_device d1 d2 → same_device d2 d3 → same_device d1 d3.
Proof. unfold same_device. intros (?&?&?&?&?) (?&?&?&?&?). split_and!; congruence. Qed.

Lemma same_device_touch d now : same_device d (touch_last_seen d now).
Proof. by repeat split. Qed.

Lemma fresh_code_inv c : fresh_code c → code_inv c.
Proof. intros (Hu & Hm & Ht). unfold code_inv. rewrite Hu, Hm, Ht. naive_solver. Qed.

Lemma mark_used_inv c mac now : code_inv (mark_used c mac now).
Proof. unfold code_inv. simpl. naive_solver. Qed.

Lemma mark_used_code k mac now c :
  ActivationCode.code (mark_used c mac now) = k ↔ ActivationCode.code c = k.
Proof. done. Qed.

Lemma touch_last_seen_mac mac now d :
  Device.mac_address (touch_last_seen d now) = mac ↔ Device.mac_address d = mac.
Proof. done. Qed.

Lemma touch_last_seen_key key now d :
  Device.api_key (touch_last_seen d now) = key ↔ Device.api_key d = key.
Proof. done. Qed.

Section EffectFacts.
Context {db db' : DB} (Heff : Effect db db').

Lemma effect_code_inv :
  Forall code_inv (activation_codes db) → Forall code_inv (activation_codes db').
Proof using Heff.
  intros Hinv. destruct Heff as [|i c d now Hi Hu Hm|i r now|c Hc Hf|l Hl Hf]; simpl;
    [done| |done| |].
  - apply Forall_alter; [done|]. intros; apply mark_used_inv.
  - apply Forall_app. split; [done|]. by constructor; [apply fresh_code_inv|].
  - eapply Forall_impl; [done|]. apply fresh_code_inv.
Qed.

(** A used row is never written again. *)
Lemma effect_used_row i c :
  activation_codes db !! i = Some c → ActivationCode.is_used c = true →
  activation_codes db' !! i = Some c.
Proof using Heff.
  intros Hi Hu. destruct Heff as [|j cj d now Hj Huj Hm|j r now|c' Hc Hf|l Hl Hf];
    simpl; [done| |done| |].
  - rewrite list_lookup_alter_ne; [done|]. intros ->. congruence.
  - by apply lookup_app_l_Some.
  - by rewrite Hl in Hi.
Qed.

(** A used code stays the answer of the lookup by code string. *)
Lemma effect_query_used k i c :
  query_code db k = Some (i, c) → ActivationCode.is_used c = true →
  query_code db' k = Some (i, c).
Proof using Heff.
  unfold query_code. intros Hq Hu.
  destruct Heff as [|j cj d now Hj Huj Hm|j r now|c' Hc Hf|l Hl Hf];
    simpl; [done| |done| |].
  - apply list_find_alter_other; [intros; apply mark_used_code| |done].
    intros ->. apply list_find_lookup in Hq. congruence.
  - by apply list_find_app_l.
  - by rewrite Hl in Hq.
Qed.

(** A registered identity keeps its row, up to [last_seen]. *)
Lemma effect_query_device mac j d :
  query_device_by_mac db mac = Some (j, d) →
  ∃ d', query_device_by_mac db' mac = Some (j, d') ∧ same_device d d'.
Proof using Heff.
  unfold query_device_by_mac. intros Hq.
  destruct Heff as [|i ci dn now Hi Hu Hm|i r now|c' Hc Hf|l Hl Hf]; simpl;
    try (exists d; split; [done|apply same_device_refl]).
  - exists d. split; [by apply list_find_app_l|apply same_device_refl].
  - rewrite list_find_alter_stable, Hq by (intros; apply touch_last_seen_mac).
    simpl. destruct (decide (j = i));
      eexists; (split; [done|]); auto using same_device_refl, same_device_touch.
Qed.
End EffectFacts.

Section RunFacts.
Variable upper : string → string.

Lemma run_code_inv db calls :
  Forall code_inv (activation_codes db) →
  Forall code_inv (activation_codes (run upper db calls)).
Proof.
  revert db. induction calls as [|call calls IH]; intros db Hinv; [done|].
  simpl. apply IH. eapply effect_code_inv; [apply step_effect|done].
Qed.

Lemma run_used_row db calls i c :
  activation_codes db !! i = Some c → ActivationCode.is_used c = true →
  activation_codes (run upper db calls) !! i = Some c.
Proof.
  revert db. induction calls as [|call calls IH]; intros db Hi Hu; [done|].
  simpl. apply IH; [|done]. eapply effect_used_row; [apply step_effect|done..].
Qed.

Lemma run_query_used db calls k i c :
  query_code db k = Some (i, c) → ActivationCode.is_used c = true →
  query_code (run upper db calls) k = Some (i, c).
Proof.
  revert db. induction calls as [|call calls IH]; intros db Hq Hu; [done|].
  simpl. apply IH; [|done]. eapply effect_query_used; [apply step_effect|done..].
Qed.

Lemma run_query_device db calls mac j d :
  query_device_by_mac db mac = Some (j, d) →
  ∃ d', query_device_by_mac (run upper db calls) mac = Some (j, d') ∧
        same_device d d'.
Proof.
  revert db d. induction calls as [|call calls IH]; intros db d Hq.
  - exists d. split; [done|apply same_device_refl].
  - simpl.
    destruct (effect_query_device (step_effect upper db call) mac j d Hq)
      as (d1 & Hq1 & Hs1).
    destruct (IH _ _ Hq1) as (d2 & Hq2 & Hs2).
    exists d2. split; [done|]. by eapply same_device_trans.
Qed.
End RunFacts.

(** ** Properties of the concrete [upper] *)



(** ** Status derivation *)

Lemma status_of_online (d : Q) : (d < 600)%Q → status_of d = ONLINE.
Proof.
  intros H. unfold status_of. by rewrite (proj1 (Qlt_alt d 600) H).
Qed.

Lemma status_of_stale (d : Q) : (600 <= d)%Q → (d < 3600)%Q → status_of d = STALE.
Proof.
  intros Hge Hlt. unfold status_of. rewrite (proj1 (Qlt_alt d 3600) Hlt).
  pose proof (proj1 (Qge_alt d 600) Hge) as Hne.
  by destruct (d ?= 600)%Q.
Qed.

Lemma status_of_offline (d : Q) : (3600 <= d)%Q → status_of d = OFFLINE.
Proof.
  intros Hge. unfold status_of.
  assert (600 <= d)%Q as H600 by (eapply Qle_trans; [|exact Hge]; done).
  pose proof (proj1 (Qge_alt d 600) H600) as Hne1.
  pose proof (proj1 (Qge_alt d 3600) Hge) as Hne2.
  by destruct (d ?= 600)%Q, (d ?= 3600)%Q.
Qed.

(** C6.  The status shown for a device is a function of the seconds elapsed
    since [last_seen] alone: below 600 it is ONLINE, from 600 up to (not
    including) 3600 it is STALE, from 3600 on it is OFFLINE; so 100 s gives
    ONLINE, 1000 s gives STALE and 10000 s gives OFFLINE. *)
Theorem status_thresholds (d : Q) (now : DateTime) (device : Device.t) :
  device_status now device
  = status_of (total_seconds (now - Device.last_seen device)) ∧
  ((d < 600)%Q → status_of d = ONLINE) ∧
  ((600 <= d)%Q → (d < 3600)%Q → status_of d = STALE) ∧
  ((3600 <= d)%Q → status_of d = OFFLINE) ∧
  status_of 100 = ONLINE ∧ status_of 1000 = STALE ∧ status_of 10000 = OFFLINE.
Proof.
  split_and!; auto using status_of_online, status_of_stale, status_of_offline.
Qed.

Lemma status_thresholds_witness :
  status_of 599 = ONLINE ∧ status_of 600 = STALE ∧ status_of 3600 = OFFLINE.
Proof.
  pose (dev := Device.mk "" "" "" "" 0 0).
  split_and!.
  - destruct (status_thresholds 599 0 dev) as (_ & H & _).
    apply H. reflexivity.
  - destruct (status_thresholds 600 0 dev) as (_ & _ & H & _).
    apply H; [unfold Qle; simpl; lia|reflexivity].
  - destruct (status_thresholds 3600 0 dev) as (_ & _ & _ & H & _).
    apply H. unfold Qle; simpl; lia.
Defined.

(** ** Ingestion *)

(** C5.  An ingest call whose credential is missing, empty, or matches no
    device is refused with status 401 in each of the three cases, and the
    database it leaves is the one it found: no reading is appended and no
    device is changed. *)
Theorem ingest_unauthenticated (db : DB) (request : UpdateRequest.t)
    (x_api_key : option string) (clk : Clock) (fault : Fault) :
  x_api_key = None ∨ x_api_key = Some "" ∨
    (∃ key, x_api_key = Some key ∧ query_device_by_key db key = None) →
  ∃ detail,
    receive_sensor_data db request x_api_key clk fault
    = (db, HTTPException 401 detail).
Proof.
  intros [->|[->|(key & -> & Hkey)]]; unfold receive_sensor_data;
    [by eexists..|].
  destruct key; [by eexists|]. rewrite Hkey. by eexists.
Qed.

Lemma ingest_unauthenticated_witness :
  ∃ detail,
    receive_sensor_data db_active req_update (Some "KEY2") tick None
    = (db_active, HTTPException 401 detail).
Proof.
  apply ingest_unauthenticated. right; right. exists "KEY2". split; reflexivity.
Defined.

Section Activation.
Variable upper : string → string.

(** C7.  An activate call for an identity that is already registered
    writes nothing: the database after the call is the database before it.
    When the presented code is found unused (the existing-device branch),
    the call answers with the stored site and credential and the code row
    is still the same unused row. *)
Theorem activate_existing_keeps_code (db : DB) (request : ActivateRequest.t)
    (api_key : string) (clk : Clock) (fault : Fault) (j : nat) (d : Device.t) :
  query_device_by_mac db (ActivateRequest.mac_address request) = Some (j, d) →
  fst (activate_device upper db request api_key clk fault) = db ∧
  ∀ i c,
    query_code db (upper (ActivateRequest.code request)) = Some (i, c) →
    ActivationCode.is_used c = false →
    snd (activate_device upper db request api_key clk fault)
    = Ok (mkActivateBody (Device.sede_id d) (Device.sede_nombre d)
            (Device.api_key d) "Dispositivo ya estaba registrado") ∧
    activation_codes (fst (activate_device upper db request api_key clk fault)) !! i
    = Some c ∧
    query_code (fst (activate_device upper db request api_key clk fault))
      (upper (ActivateRequest.code request)) = Some (i, c).
Proof.
  intros Hm.
  assert (fst (activate_device upper db request api_key clk fault) = db) as Hdb.
  { unfold activate_device.
    destruct (query_code db (upper (ActivateRequest.code request))) as [[i c]|]; [|done].
    destruct (ActivationCode.is_used c); [done|]. by rewrite Hm. }
  split; [done|]. intros i c Hc Hu. rewrite Hdb. split_and!; [|by eapply list_find_lookup|done].
  unfold activate_device. by rewrite Hc, Hu, Hm.
Qed.

(** C1 (as amended).  For a registered identity, at any later state of the
    system, an activate call that presents an existing unused code succeeds
    with the site and the credential stored for that identity (the same at
    every call) and writes nothing, so no device is created; a call that
    presents an existing used code is refused with 422 and writes nothing. *)
Theorem activate_registered (db : DB) (calls : list Call)
    (request : ActivateRequest.t) (api_key : string) (clk : Clock)
    (fault : Fault) (j : nat) (d : Device.t) :
  query_device_by_mac db (ActivateRequest.mac_address request) = Some (j, d) →
  let db' := run upper db calls in
  ∀ i c,
    query_code db' (upper (ActivateRequest.code request)) = Some (i, c) →
    (ActivationCode.is_used c = false →
     activate_device upper db' request api_key clk fault
     = (db', Ok (mkActivateBody (Device.sede_id d) (Device.sede_nombre d)
                   (Device.api_key d) "Dispositivo ya estaba registrado"))) ∧
    (ActivationCode.is_used c = true →
     activate_device upper db' request api_key clk fault
     = (db', HTTPException 422
               ("Código ya utilizado por " +:+
                format_mac (ActivationCode.used_by_mac c)))).
Proof.
  intros Hm db' i c Hc.
  destruct (run_query_device upper db calls _ _ _ Hm)
    as (d' & Hm' & _ & Hsid & Hsn & Hkey & _).
  fold db' in Hm'. unfold activate_device. rewrite Hc.
  split; intros ->; [|done]. by rewrite Hm', Hsid, Hsn, Hkey.
Qed.

(** C2.  When the presented code is unused, the identity has no device,
    the issued credential is new and the store does not fail, activate
    succeeds and turns exactly that code row into a used one, consumed by
    that identity at the time read in the handler; the row is never written
    again, and after any further calls every activate that presents the
    same code (in any letter case, for any identity, hence for a different
    one) is refused with 422 and a message naming the consuming identity,
    and writes nothing. *)
Theorem activate_consumes_once (db : DB) (request : ActivateRequest.t)
    (api_key : string) (clk : Clock) (i : nat) (c : ActivationCode.t) :
  query_code db (upper (ActivateRequest.code request)) = Some (i, c) →
  ActivationCode.is_used c = false →
  query_device_by_mac db (ActivateRequest.mac_address request) = None →
  query_device_by_key db api_key = None →
  let r := activate_device upper db request api_key clk None in
  let c' := mark_used c (ActivateRequest.mac_address request) (clk 0%nat) in
  snd r = Ok (mkActivateBody (ActivationCode.sede_id c)
                (ActivationCode.sede_nombre c) api_key
                "Dispositivo activado exitosamente") ∧
  activation_codes (fst r) !! i = Some c' ∧
  ActivationCode.is_used c' = true ∧
  ActivationCode.used_by_mac c' = Some (ActivateRequest.mac_address request) ∧
  ActivationCode.used_at c' = Some (clk 0%nat) ∧
  (∀ k, k ≠ i → activation_codes (fst r) !! k = activation_codes db !! k) ∧
  ∀ calls request' api_key' clk' fault',
    upper (ActivateRequest.code request') = upper (ActivateRequest.code request) →
    let db2 := run upper (fst r) calls in
    activation_codes db2 !! i = Some c' ∧
    activate_device upper db2 request' api_key' clk' fault'
    = (db2, HTTPException 422
              ("Código ya utilizado por " +:+ ActivateRequest.mac_address request)).
Proof.
  intros Hc Hu Hm Hk r c'. subst r.
  destruct (activate_device_new upper db request api_key clk None i c Hc Hu Hm)
    as [(_ & _ & ->)|(e & [(k & m & ? & _)|Hsome] & _)];
    [|done|rewrite Hk in Hsome; by destruct Hsome].
  cbn [fst snd activation_codes].
  assert (alter (λ c0, mark_used c0 (ActivateRequest.mac_address request) (clk 0%nat)) i
            (activation_codes db) !! i = Some c') as Hrow.
  { rewrite list_lookup_alter_eq. by rewrite (list_find_lookup _ _ _ _ Hc). }
  split_and!; try done.
  - intros k Hne. by rewrite list_lookup_alter_ne.
  - intros calls request' api_key' clk' fault' Hsame.
    set (db1 := mkDB _ _ _). set (db2 := run upper db1 calls).
    assert (query_code db1 (upper (ActivateRequest.code request)) = Some (i, c')) as Hq1.
    { apply (list_find_alter_same _
               (λ c0, mark_used c0 (ActivateRequest.mac_address request) (clk 0%nat)));
        [intros; apply mark_used_code|done]. }
    split.
    + by apply run_used_row.
    + pose proof (run_query_used upper db1 calls _ _ _ Hq1 eq_refl) as Hq2.
      fold db2 in Hq2. unfold activate_device. by rewrite Hsame, Hq2.
Qed.

(** C10 (as amended).  A device created by a successful first activation
    gets [activated_at] and [last_seen] from the two clock readings made
    when its row is inserted, the one after the other, and no reading of
    the sensor is stored by the call; the status derived from that
    [last_seen] is ONLINE at the instant of the reading and at every time
    less than 600 seconds after it. *)
Theorem new_device_online (db : DB) (request : ActivateRequest.t)
    (api_key : string) (clk : Clock) (i : nat) (c : ActivationCode.t) :
  query_code db (upper (ActivateRequest.code request)) = Some (i, c) →
  ActivationCode.is_used c = false →
  query_device_by_mac db (ActivateRequest.mac_address request) = None →
  query_device_by_key db api_key = None →
  let db1 := fst (activate_device upper db request api_key clk None) in
  ∃ d,
    query_device_by_mac db1 (ActivateRequest.mac_address request)
    = Some (length (devices db), d) ∧
    Device.activated_at d = clk 1%nat ∧
    Device.last_seen d = clk 2%nat ∧
    sensor_data db1 = sensor_data db ∧
    device_status (clk 2%nat) d = ONLINE ∧
    ∀ now, now - clk 2%nat < 600 * 1000000 → device_status now d = ONLINE.
Proof.
  intros Hc Hu Hm Hk db1. subst db1.
  destruct (activate_device_new upper db request api_key clk None i c Hc Hu Hm)
    as [(_ & _ & ->)|(e & [(k & m & ? & _)|Hsome] & _)];
    [|done|rewrite Hk in Hsome; by destruct Hsome].
  simpl.
  exists (Device.mk (ActivateRequest.mac_address request) (ActivationCode.sede_id c)
            (ActivationCode.sede_nombre c) api_key (clk 1%nat) (clk 2%nat)).
  split_and!; [|reflexivity..| |].
  - unfold query_device_by_mac in *. simpl.
    rewrite list_find_app_r by done. simpl.
    by destruct (decide (ActivateRequest.mac_address request = ActivateRequest.mac_address request)).
  - apply status_of_online. unfold device_status, total_seconds, Qlt. simpl. lia.
  - intros now Hnow. apply status_of_online.
    unfold device_status, total_seconds, Qlt. simpl. lia.
Qed.
End Activation.

(** C1, as stated, fails: the device AA:BB:CC is registered and the code
    ABC-123 exists (it is the code the device consumed), yet activate is
    refused. *)
Lemma activate_registered_with_used_code_refused :
  ¬ (∀ db request api_key clk fault j d i c,
       query_device_by_mac db (ActivateRequest.mac_address request) = Some (j, d) →
       query_code db (str_upper (ActivateRequest.code request)) = Some (i, c) →
       ∃ body,
         activate_device str_upper db request api_key clk fault = (db, Ok body) ∧
         ab_api_key body = Device.api_key d).
Proof.
  intros H.
  edestruct (H db_active req_activate "KEY2" tick None) as (body & Heq & _);
    [reflexivity..|].
  vm_compute in Heq. discriminate Heq.
Qed.

(** C10, as stated, fails: the two timestamps of a new device are two
    readings of the clock, here one microsecond apart. *)
Lemma new_device_last_seen_differs :
  ¬ (∀ db request api_key clk fault db' body,
       query_device_by_mac db (ActivateRequest.mac_address request) = None →
       activate_device str_upper db request api_key clk fault = (db', Ok body) →
       ∃ j d,
         query_device_by_mac db' (ActivateRequest.mac_address request) = Some (j, d) ∧
         Device.last_seen d = Device.activated_at d).
Proof.
  intros H.
  edestruct (H db_code req_activate "KEY1" tick None) as (j & d & Hq & Heq);
    [reflexivity..|].
  vm_compute in Hq. injection Hq as <- <-. vm_compute in Heq. discriminate Heq.
Qed.

(** ** Ingestion of readings *)

(** C3 (as amended).  An ingest call with the credential of a device, when
    the store does not fail, succeeds; and every successful ingest call
    appends exactly one reading (the count of readings grows by exactly 1),
    sets [last_seen] of the owning device to the clock reading made in the
    handler, gives the appended reading the clock reading made when its row
    is inserted, and changes nothing else. *)
Theorem ingest_appends_one (db : DB) (request : UpdateRequest.t)
    (x_api_key : option string) (clk : Clock) (fault : Fault) :
  (∀ key i d,
     x_api_key = Some key → key ≠ "" →
     query_device_by_key db key = Some (i, d) →
     (∀ k m, fault = Some (k, m) → (3 ≤ k)%nat) →
     ∃ body, snd (receive_sensor_data db request x_api_key clk fault) = Ok body) ∧
  (∀ db' body,
     receive_sensor_data db request x_api_key clk fault = (db', Ok body) →
     ∃ key i d,
       x_api_key = Some key ∧
       query_device_by_key db key = Some (i, d) ∧
       sensor_data db'
       = (sensor_data db ++
          [SensorData.mk (Device.mac_address d) (UpdateRequest.temperatura request)
             (UpdateRequest.humedad request) (clk 1%nat)])%list ∧
       total_readings db' = S (total_readings db) ∧
       query_device_by_key db' key = Some (i, touch_last_seen d (clk 0%nat)) ∧
       Device.last_seen (touch_last_seen d (clk 0%nat)) = clk 0%nat ∧
       (∀ j, j ≠ i → devices db' !! j = devices db !! j) ∧
       length (devices db') = length (devices db) ∧
       activation_codes db' = activation_codes db ∧
       ub_mac_address body = Device.mac_address d ∧
       ub_timestamp body = clk 2%nat).
Proof.
  split.
  - intros key i d -> Hne Hq Hf. unfold receive_sensor_data.
    destruct key as [|a key]; [done|]. rewrite Hq.
    destruct (commit_updates db
                (SensorData.mk (Device.mac_address d) (UpdateRequest.temperatura request)
                   (UpdateRequest.humedad request) (clk 1%nat)) i (clk 0%nat) fault)
      as [(_ & ->)|(k & m & -> & Hlt & _)]; [by eexists|].
    specialize (Hf k m eq_refl). lia.
  - intros db' body. unfold receive_sensor_data.
    destruct x_api_key as [[|a key]|]; [done| |done].
    destruct (query_device_by_key db (String a key)) as [[i d]|] eqn:Hq; [|done].
    destruct (commit_updates db
                (SensorData.mk (Device.mac_address d) (UpdateRequest.temperatura request)
                   (UpdateRequest.humedad request) (clk 1%nat)) i (clk 0%nat) fault)
      as [(_ & ->)|(k & m & _ & _ & ->)]; [|done].
    intros [= <- <-]. exists (String a key), i, d. simpl.
    split_and!; try done.
    + unfold total_readings. simpl. rewrite length_app. simpl. lia.
    + unfold query_device_by_key in *. simpl.
      apply (list_find_alter_same _ (λ d0, touch_last_seen d0 (clk 0%nat)));
        [intros; apply touch_last_seen_key|done].
    + intros j Hj. by rewrite list_lookup_alter_ne.
    + by rewrite length_alter.
Qed.

(** C3, as stated, fails: [last_seen] and the timestamp of the appended
    reading are two readings of the clock, here one microsecond apart. *)
Lemma ingest_last_seen_differs_from_reading :
  ¬ (∀ db request key clk fault db' body,
       receive_sensor_data db request (Some key) clk fault = (db', Ok body) →
       total_readings db' = S (total_readings db) ∧
       ∃ j d r,
         query_device_by_key db' key = Some (j, d) ∧
         last (sensor_data db') = Some r ∧
         Device.last_seen d = SensorData.timestamp r).
Proof.
  intros H.
  edestruct (H db_active req_update "KEY1" tock None) as (_ & j & d & r & Hq & Hr & Heq);
    [reflexivity|].
  vm_compute in Hq, Hr. injection Hq as <- <-. injection Hr as <-.
  vm_compute in Heq. discriminate Heq.
Qed.

(** ** The usage fields of activation codes *)

Section Codes.
Variable upper : string → string.

(** C8.  If in every stored code [is_used] holds exactly when
    [used_by_mac] is set and exactly when [used_at] is set, the same is
    true after any sequence of calls of the system, and it is true in
    every state reached from the empty database; and a code row that is
    used is the very same row after any sequence of calls, so it is never
    unused again. *)
Theorem code_usage_invariant (db : DB) (calls : list Call) :
  Forall code_inv (activation_codes db) →
  Forall code_inv (activation_codes (run upper db calls)) ∧
  Forall code_inv (activation_codes (run upper empty_db calls)) ∧
  ∀ i c,
    activation_codes db !! i = Some c →
    ActivationCode.is_used c = true →
    activation_codes (run upper db calls) !! i = Some c.
Proof.
  intros Hinv. split_and!.
  - by apply run_code_inv.
  - apply run_code_inv. constructor.
  - intros i c. apply run_used_row.
Qed.

End Codes.

(** ** The theorems at the scenario *)

Lemma activate_existing_keeps_code_witness :
  query_device_by_mac db_two_codes (ActivateRequest.mac_address req_again) = Some (0%nat, dev_active) ∧
  fst (activate_device str_upper db_two_codes req_again "KEY9" tick None)
  = db_two_codes.
Proof.
  split; [reflexivity|].
  apply (activate_existing_keeps_code str_upper db_two_codes req_again "KEY9"
           tick None 0%nat dev_active).
  reflexivity.
Defined.

Lemma activate_registered_witness :
  query_device_by_mac db_active (ActivateRequest.mac_address req_again) = Some (0%nat, dev_active) ∧
  activate_device str_upper db_two_codes req_again "KEY9" tick None
  = (db_two_codes,
     Ok (mkActivateBody "S1" "Site One" "KEY1" "Dispositivo ya estaba registrado")).
Proof.
  split; [reflexivity|].
  destruct (activate_registered str_upper db_active
              [POST_activation_codes (CreateCodeRequest.mk "xyz-9" "S2" "Site Two")
                 tick None]
              req_again "KEY9" tick None 0%nat dev_active eq_refl
              1%nat code_xyz eq_refl) as [H _].
  exact (H eq_refl).
Defined.

Lemma activate_consumes_once_witness :
  snd (activate_device str_upper db_code req_activate "KEY1" tick None)
  = Ok (mkActivateBody "S1" "Site One" "KEY1" "Dispositivo activado exitosamente") ∧
  activate_device str_upper db_active req_other "KEY2" tick None
  = (db_active, HTTPException 422 "Código ya utilizado por AA:BB:CC").
Proof.
  destruct (activate_consumes_once str_upper db_code req_activate "KEY1" tick
              0%nat code_unused eq_refl eq_refl eq_refl eq_refl)
    as (Hok & _ & _ & _ & _ & _ & Hlater).
  split; [exact Hok|].
  exact (proj2 (Hlater [] req_other "KEY2" tick None eq_refl)).
Defined.

Lemma new_device_online_witness :
  ∃ d,
    query_device_by_mac db_active "AA:BB:CC" = Some (0%nat, d) ∧
    Device.last_seen d = 2 ∧
    device_status (2 + 599999999) d = ONLINE.
Proof.
  destruct (new_device_online str_upper db_code req_activate "KEY1" tick
              0%nat code_unused eq_refl eq_refl eq_refl eq_refl)
    as (d & Hq & _ & Hseen & _ & _ & Hnow).
  exists d. split_and!; [exact Hq|exact Hseen|].
  apply Hnow. reflexivity.
Defined.

Lemma ingest_appends_one_witness :
  ∃ body,
    snd (receive_sensor_data db_active req_update (Some "KEY1") tick None) = Ok body.
Proof.
  destruct (ingest_appends_one db_active req_update (Some "KEY1") tick None)
    as [H _].
  apply (H "KEY1" 0%nat dev_active); [reflexivity|discriminate|reflexivity|].
  intros k m Hf. discriminate Hf.
Defined.

Lemma code_usage_invariant_witness :
  Forall code_inv (activation_codes db_active) ∧
  Forall code_inv
    (activation_codes (run str_upper db_active [POST_activate req_other "KEY2" tick None])).
Proof.
  assert (Forall code_inv (activation_codes db_active)) as Hinv.
  { constructor; [|constructor]. apply mark_used_inv. }
  split; [exact Hinv|].
  exact (proj1 (code_usage_invariant str_upper db_active
                  [POST_activate req_other "KEY2" tick None] Hinv)).
Defined.


(** The end-to-end scenario: the code ABC-123 for site S1, redeemed in
    lower case by AA:BB:CC, then one reading five seconds later. *)
Example end_to_end :
  let r := receive_sensor_data db_active req_update (Some "KEY1") tock None in
  activation_codes db_active
  = [ActivationCode.mk "ABC-123" "S1" "Site One" true (Some "AA:BB:CC") (Some 0) 0] ∧
  devices db_active = [dev_active] ∧
  sensor_data (fst r) = [SensorData.mk "AA:BB:CC" (43 # 2) (55 # 1) 5000001] ∧
  devices (fst r) = [Device.mk "AA:BB:CC" "S1" "Site One" "KEY1" 1 5000000] ∧
  snd r
  = Ok (mkUpdateBody "Datos recibidos correctamente" "Site One" "AA:BB:CC" 5000002) ∧
  device_status 5000002 dev_active = ONLINE.
Proof. by split_and!. Qed.

(** * Further properties of the handlers and of the read-only endpoints *)

(** ** Lists: rows updated in place *)

Section ListAlter.
Context {A : Type}.

Lemma fmap_alter_same {B : Type} (f : A → B) (g : A → A) (l : list A) (i : nat) :
  (∀ x, f (g x) = f x) → f <$> alter g i l = f <$> l.
Proof.
  intros Hfg. rewrite (list_fmap_alter f g id) by (apply Forall_forall; intros; apply Hfg).
  by apply list_alter_id.
Qed.

Lemma elem_of_alter (g : A → A) (l : list A) (i : nat) (y : A) :
  y ∈ alter g i l → y ∈ l ∨ ∃ x, l !! i = Some x ∧ y = g x.
Proof.
  intros (j & Hj)%list_elem_of_lookup.
  destruct (decide (i = j)) as [->|Hne].
  - rewrite list_lookup_alter_eq in Hj.
    destruct (l !! j) as [x|] eqn:Hx; simplify_eq/=. right. by exists x.
  - rewrite list_lookup_alter_ne in Hj by done. left. by eapply list_elem_of_lookup_2.
Qed.

Lemma elem_of_alter_keep (g : A → A) (l : list A) (i : nat) (x : A) :
  x ∈ l → x ∈ alter g i l ∨ g x ∈ alter g i l.
Proof.
  intros (j & Hj)%list_elem_of_lookup.
  destruct (decide (i = j)) as [->|Hne].
  - right. apply list_elem_of_lookup. exists j.
    by rewrite list_lookup_alter_eq, Hj.
  - left. apply list_elem_of_lookup. exists j.
    by rewrite list_lookup_alter_ne.
Qed.

Lemma exists_alter (Q : A → Prop) (g : A → A) (l : list A) (i : nat) :
  (∀ x, Q (g x) ↔ Q x) →
  (∃ x, x ∈ alter g i l ∧ Q x) ↔ (∃ x, x ∈ l ∧ Q x).
Proof.
  intros HQ. split.
  - intros (y & [Hy|(x & Hx & ->)]%elem_of_alter & HQy); [by exists y|].
    exists x. split; [by eapply list_elem_of_lookup_2|by apply HQ].
  - intros (x & [Hx|Hx]%(elem_of_alter_keep g l i) & HQx); [by exists x|].
    exists (g x). split; [done|by apply HQ].
Qed.

Lemma length_filter_alter_gain (P : A → Prop) `{!∀ x, Decision (P x)}
    (g : A → A) (l : list A) (i : nat) (x : A) :
  l !! i = Some x → ¬ P x → P (g x) →
  length (filter P (alter g i l)) = S (length (filter P l)).
Proof.
  revert i. induction l as [|a l IH]; intros i Hi Hn Hp; [done|].
  destruct i as [|i]; simplify_eq/=.
  - rewrite filter_cons_True, filter_cons_False by done. done.
  - change (list_alter g i l) with (alter g i l).
    rewrite !filter_cons. destruct (decide (P a)); simpl; by rewrite (IH i).
Qed.

Lemma length_filter_alter_loss (P : A → Prop) `{!∀ x, Decision (P x)}
    (g : A → A) (l : list A) (i : nat) (x : A) :
  l !! i = Some x → P x → ¬ P (g x) →
  S (length (filter P (alter g i l))) = length (filter P l).
Proof.
  revert i. induction l as [|a l IH]; intros i Hi Hp Hn; [done|].
  destruct i as [|i]; simplify_eq/=.
  - rewrite filter_cons_False, filter_cons_True by done. done.
  - change (list_alter g i l) with (alter g i l).
    rewrite !filter_cons. destruct (decide (P a)); simpl; by rewrite <- (IH i).
Qed.

Lemma list_find_None_not_elem_of {B : Type} `{!EqDecision B} (f : A → B)
    (k : B) (l : list A) :
  list_find (λ x, f x = k) l = None → k ∉ f <$> l.
Proof.
  intros Hnone%list_find_None (x & -> & Hx)%list_elem_of_fmap.
  by eapply (proj1 (Forall_forall _ _) Hnone).
Qed.
End ListAlter.

(** ** Transitions *)

Section TransitionFacts.
Variable upper : string → string.

Lemma activate_device_transition db request api_key clk fault :
  Transition db (fst (activate_device upper db request api_key clk fault)).
Proof.
  destruct (query_code db (upper (ActivateRequest.code request)))
    as [[i c]|] eqn:Hc;
    [|unfold activate_device; rewrite Hc; constructor].
  destruct (ActivationCode.is_used c) eqn:Hu;
    [unfold activate_device; rewrite Hc, Hu; constructor|].
  destruct (query_device_by_mac db (ActivateRequest.mac_address request))
    as [[j d]|] eqn:Hm;
    [unfold activate_device; rewrite Hc, Hu, Hm; constructor|].
  destruct (activate_device_new upper db request api_key clk fault i c Hc Hu Hm)
    as [(Hk & _ & ->)|(e & _ & ->)]; [|constructor].
  simpl. eapply (T_activated db i c (Device.mk _ _ _ _ _ _)); [|done..].
  by eapply list_find_lookup.
Qed.

Lemma receive_sensor_data_transition db request x_api_key clk fault :
  Transition db (fst (receive_sensor_data db request x_api_key clk fault)).
Proof.
  unfold receive_sensor_data.
  destruct x_api_key as [[|a key]|]; try constructor.
  destruct (query_device_by_key db (String a key)) as [[i d]|] eqn:Hq;
    [|constructor].
  destruct (commit_updates db
              (SensorData.mk (Device.mac_address d)
                 (UpdateRequest.temperatura request)
                 (UpdateRequest.humedad request) (clk 1%nat)) i (clk 0%nat) fault)
    as [(_ & ->)|(k & m & _ & _ & ->)]; [|constructor].
  simpl. apply (T_reading db i d); [|done]. by eapply list_find_lookup.
Qed.

Lemma create_activation_code_transition db request clk fault :
  Transition db (fst (create_activation_code upper db request clk fault)).
Proof.
  unfold create_activation_code.
  destruct (query_code db (upper (CreateCodeRequest.code request)))
    as [p|] eqn:Hc; [constructor|].
  destruct (commit_create db
              (ActivationCode.mk (upper (CreateCodeRequest.code request))
                 (CreateCodeRequest.sede_id request)
                 (CreateCodeRequest.sede_nombre request)
                 false None None (clk 0%nat)) fault Hc)
    as [(_ & ->)|(k & m & _ & _ & ->)]; [|constructor].
  by apply T_code.
Qed.

Lemma sample_codes_NoDup : NoDup (fst ∘ fst <$> sample_codes).
Proof. apply (bool_decide_unpack _). by vm_compute. Qed.

Lemma init_database_transition db clk fault :
  Transition db (init_database db clk fault).
Proof.
  unfold init_database.
  destruct db as [codes devs sd]; destruct codes as [|c codes]; [|constructor].
  unfold commit.
  destruct fault as [[[|[|[|[|[|[|k]]]]]] m]|]; simpl;
    first [ apply T_none
          | apply (T_seeded (mkDB [] devs sd));
            [done|repeat constructor|apply sample_codes_NoDup] ].
Qed.

Lemma step_transition db call : Transition db (step upper db call).
Proof.
  destruct call; simpl;
    auto using activate_device_transition, receive_sensor_data_transition,
      create_activation_code_transition, init_database_transition, T_none.
Qed.

(** An invariant of every transition holds along every run. *)
Lemma run_invariant (I : DB → Prop) :
  (∀ db db', Transition db db' → I db → I db') →
  ∀ db calls, I db → I (run upper db calls).
Proof.
  intros Hstep db calls. revert db.
  induction calls as [|call calls IH]; intros db HI; [done|].
  simpl. apply IH. eapply Hstep; [apply step_transition|done].
Qed.
End TransitionFacts.

(** ** The finer invariants are kept by every transition *)

Lemma transition_unique_columns db db' :
  Transition db db' → unique_columns db → unique_columns db'.
Proof.
  intros Ht (Hc & Hm & Hk).
  destruct Ht as [|i c d now Hi Hu Hmac Hkey _ _|i d r now Hi Hr|c Hq Hf|l Hl Hf Hnd];
    unfold unique_columns; simpl; [done| | | |].
  - split_and!.
    + by rewrite fmap_alter_same.
    + rewrite fmap_app. apply NoDup_app. split_and!; [done| |apply NoDup_singleton].
      intros x Hx ->%list_elem_of_singleton.
      by apply (list_find_None_not_elem_of Device.mac_address _ _ Hmac).
    + rewrite fmap_app. apply NoDup_app. split_and!; [done| |apply NoDup_singleton].
      intros x Hx ->%list_elem_of_singleton.
      by apply (list_find_None_not_elem_of Device.api_key _ _ Hkey).
  - split_and!; [done|by rewrite fmap_alter_same..].
  - split_and!; [|done..].
    rewrite fmap_app. apply NoDup_app. split_and!; [done| |apply NoDup_singleton].
    intros x Hx ->%list_elem_of_singleton.
    by apply (list_find_None_not_elem_of ActivationCode.code _ _ Hq).
  - by split_and!.
Qed.

Lemma consumed_by_touch c d now :
  consumed_by c (touch_last_seen d now) ↔ consumed_by c d.
Proof. done. Qed.

Lemma transition_linked db db' : Transition db db' → linked db → linked db'.
Proof.
  intros Ht (Hcd & Hdc & Hlen).
  destruct Ht as [|i c d now Hi Hu Hmac Hkey Hsid Hsn|i d r now Hi Hr|c Hq Hf|l Hl Hf Hnd];
    unfold linked; simpl; [done| | | |].
  - split_and!.
    + intros c' [Hc'|(x & Hx & ->)]%elem_of_alter Hused.
      * destruct (Hcd c' Hc' Hused) as (d' & Hd' & Hcons).
        exists d'. split; [|done]. apply elem_of_app. by left.
      * simplify_eq. exists d. split; [|by repeat split].
        apply elem_of_app. right. by apply list_elem_of_singleton.
    + intros d' [Hd'| ->%list_elem_of_singleton]%elem_of_app.
      * destruct (Hdc d' Hd') as (c' & Hc' & Hcons).
        exists c'. split; [|done].
        destruct (elem_of_alter_keep
                    (λ c0, mark_used c0 (Device.mac_address d) now)
                    _ i c' Hc') as [?|_]; [done|].
        apply list_elem_of_lookup in Hc' as (j & Hj).
        apply list_elem_of_lookup. exists j.
        rewrite list_lookup_alter_ne; [done|]. intros ->.
        destruct Hcons as (Hused & _). congruence.
      * exists (mark_used c (Device.mac_address d) now). split; [|by repeat split].
        apply list_elem_of_lookup. exists i. by rewrite list_lookup_alter_eq, Hi.
    + rewrite length_app. simpl.
      rewrite (length_filter_alter_gain _ _ _ _ c) by (done || congruence).
      lia.
  - split_and!; [| |by rewrite length_alter].
    + intros c Hc Hused. destruct (Hcd c Hc Hused) as (d' & Hd' & Hcons).
      apply (exists_alter (consumed_by c)); [intros; apply consumed_by_touch|].
      by exists d'.
    + intros d' [Hd'|(x & Hx & ->)]%elem_of_alter; [by apply Hdc|].
      destruct (Hdc x) as (c & Hc & Hcons); [by eapply list_elem_of_lookup_2|].
      by exists c.
  - destruct Hf as (Hu & _). split_and!.
    + intros c' [Hc'| ->%list_elem_of_singleton]%elem_of_app Hused;
        [by apply Hcd|congruence].
    + intros d Hd. destruct (Hdc d Hd) as (c' & Hc' & Hcons).
      exists c'. split; [|done]. apply elem_of_app. by left.
    + rewrite filter_app, length_app, filter_cons_False by congruence. simpl. lia.
  - rewrite Hl in *. split_and!.
    + intros c Hc Hused.
      destruct (proj1 (Forall_forall _ _) Hf c Hc) as (Hu & _). congruence.
    + intros d Hd. destruct (Hdc d Hd) as (c & Hc & _). by apply elem_of_nil in Hc.
    + rewrite Hlen. simpl. symmetry. apply length_zero_iff_nil.
      induction Hf as [|c l (Hu & _) _ IH]; [done|].
      rewrite filter_cons_False by congruence. apply IH. by inversion Hnd.
Qed.

Lemma transition_readings_registered db db' :
  Transition db db' → readings_registered db → readings_registered db'.
Proof.
  intros Ht Hreg.
  destruct Ht as [|i c d now Hi Hu Hmac Hkey Hsid Hsn|i d r now Hi Hr|c Hq Hf|l Hl Hf Hnd];
    unfold readings_registered; simpl; try done.
  - intros r Hr. destruct (Hreg r Hr) as (d' & Hd' & Heq).
    exists d'. split; [|done]. apply elem_of_app. by left.
  - intros r' Hr'.
    apply (exists_alter (λ d0, Device.mac_address d0 = SensorData.mac_address r'));
      [done|].
    apply elem_of_app in Hr' as [Hr'| ->%list_elem_of_singleton];
      [by apply Hreg|].
    exists d. split; [by eapply list_elem_of_lookup_2|done].
Qed.

Lemma same_code_refl c : same_code c c.
Proof. by repeat split. Qed.

Lemma same_code_trans c1 c2 c3 : same_code c1 c2 → same_code c2 c3 → same_code c1 c3.
Proof. unfold same_code. intros (?&?&?&?) (?&?&?&?). split_and!; congruence. Qed.

Lemma extends_refl db : extends db db.
Proof.
  split_and!; [intros i c ?; exists c|intros j d ?; exists d|done];
    split; auto using same_code_refl, same_device_refl.
Qed.

Lemma extends_trans db1 db2 db3 : extends db1 db2 → extends db2 db3 → extends db1 db3.
Proof.
  intros (Hc1 & Hd1 & Hr1) (Hc2 & Hd2 & Hr2). split_and!.
  - intros i c Hi. destruct (Hc1 i c Hi) as (c' & Hi' & Hs).
    destruct (Hc2 i c' Hi') as (c'' & Hi'' & Hs').
    exists c''. split; [done|]. by eapply same_code_trans.
  - intros j d Hj. destruct (Hd1 j d Hj) as (d' & Hj' & Hs).
    destruct (Hd2 j d' Hj') as (d'' & Hj'' & Hs').
    exists d''. split; [done|]. by eapply same_device_trans.
  - by etrans.
Qed.

Lemma transition_extends db db' : Transition db db' → extends db db'.
Proof.
  intros Ht.
  destruct Ht as [|i c d now Hi Hu Hmac Hkey Hsid Hsn|i d r now Hi Hr|c Hq Hf|l Hl Hf Hnd];
    [apply extends_refl|..]; split_and!; simpl;
    try (intros k x Hk; exists x; split;
         [done|auto using same_code_refl, same_device_refl]);
    try done.
  - intros k x Hk. destruct (decide (i = k)) as [->|Hne].
    + exists (mark_used x (Device.mac_address d) now).
      rewrite list_lookup_alter_eq, Hk. by repeat split.
    + exists x. rewrite list_lookup_alter_ne by done. split; [done|apply same_code_refl].
  - intros k x Hk. exists x. split; [by apply lookup_app_l_Some|apply same_device_refl].
  - intros k x Hk. destruct (decide (i = k)) as [->|Hne].
    + exists (touch_last_seen x now).
      rewrite list_lookup_alter_eq, Hk. by repeat split.
    + exists x. rewrite list_lookup_alter_ne by done. split; [done|apply same_device_refl].
  - by apply prefix_app_r.
  - intros k x Hk. exists x. split; [by apply lookup_app_l_Some|apply same_code_refl].
  - intros k x Hk. by rewrite Hl in Hk.
Qed.

Lemma length_filter_used_split (l : list ActivationCode.t) :
  length l
  = (length (filter (λ c, ActivationCode.is_used c = false) l)
     + length (filter (λ c, ActivationCode.is_used c = true) l))%nat.
Proof.
  induction l as [|c l IH]; [done|].
  rewrite !filter_cons.
  repeat case_decide; simpl; try lia; destruct (ActivationCode.is_used c); congruence.
Qed.

(** X1.  In the listing of activation codes the total is the number of
    codes listed and equals available plus used; the panel's counter of
    available codes is the listing's. *)
Theorem list_activation_codes_counts (db : DB) :
  cl_total (list_activation_codes db)
  = (cl_available (list_activation_codes db)
     + cl_used (list_activation_codes db))%nat ∧
  cl_total (list_activation_codes db) = length (cl_codes (list_activation_codes db)) ∧
  (panel_stats db).1.2 = cl_available (list_activation_codes db).
Proof. split_and!; [apply length_filter_used_split|done..]. Qed.

Section Extras.
Variable upper : string → string.

(** X2.  If no code string, no device identity and no credential is stored
    twice, the same holds after any sequence of calls; it holds in every
    state reached from the empty database. *)
Theorem unique_columns_invariant (db : DB) (calls : list Call) :
  unique_columns db →
  unique_columns (run upper db calls) ∧ unique_columns (run upper empty_db calls).
Proof.
  intros Hu. split; (apply run_invariant; [apply transition_unique_columns|]); [done|].
  unfold unique_columns. simpl. split_and!; constructor.
Qed.

(** X3.  Used codes and devices correspond, and keep corresponding after any
    sequence of calls: every used code names as its consumer a registered
    device that carries the code's site, every device is named by a used
    code of its site, and there are as many devices as used codes, so the
    panel's device counter equals the listing's used counter. *)
Theorem devices_match_used_codes (db : DB) (calls : list Call) :
  linked db →
  linked (run upper db calls) ∧
  linked (run upper empty_db calls) ∧
  (panel_stats (run upper db calls)).1.1
  = cl_used (list_activation_codes (run upper db calls)).
Proof.
  intros Hl.
  assert (linked (run upper db calls)) as Hrun
    by (apply run_invariant; [apply transition_linked|done]).
  split_and!; [done| |by destruct Hrun as (_ & _ & ?)].
  apply run_invariant; [apply transition_linked|].
  unfold linked. simpl.
  split_and!; [by intros c ?%elem_of_nil|by intros d ?%elem_of_nil|done].
Qed.

(** X4.  If every stored reading carries the identity of a registered
    device, the same holds after any sequence of calls; it holds in every
    state reached from the empty database. *)
Theorem readings_belong_to_devices (db : DB) (calls : list Call) :
  readings_registered db →
  readings_registered (run upper db calls) ∧
  readings_registered (run upper empty_db calls).
Proof.
  intros Hr.
  split; (apply run_invariant; [apply transition_readings_registered|]); [done|].
  by intros r ?%elem_of_nil.
Qed.

Lemma run_extends db calls : extends db (run upper db calls).
Proof.
  revert db. induction calls as [|call calls IH]; intros db; [apply extends_refl|].
  simpl. eapply extends_trans; [|apply IH].
  apply transition_extends, step_transition.
Qed.

(** X5.  No call deletes or rewrites a row's identity: after any sequence
    of calls every code row is at its position with the same code string,
    site and creation time, every device row is at its position with the
    same identity, site, credential and activation time, and the readings
    stored before are a prefix of the readings stored after. *)
Theorem rows_never_deleted (db : DB) (calls : list Call) :
  (∀ i c, activation_codes db !! i = Some c →
          ∃ c', activation_codes (run upper db calls) !! i = Some c' ∧
                same_code c c') ∧
  (∀ j d, devices db !! j = Some d →
          ∃ d', devices (run upper db calls) !! j = Some d' ∧ same_device d d') ∧
  sensor_data db `prefix_of` sensor_data (run upper db calls) ∧
  (total_readings db ≤ total_readings (run upper db calls))%nat.
Proof.
  destruct (run_extends db calls) as (Hc & Hd & Hr).
  split_and!; [done..|]. by apply prefix_length.
Qed.
End Extras.

(** ** Reading the tables *)

#[global] Instance newer_trans : Transitive newer.
Proof. unfold newer. intros x y z ??. lia. Qed.

#[global] Instance newer_total : Total newer.
Proof. unfold newer. intros x y. lia. Qed.

Lemma readings_of_perm db mac :
  readings_of db mac
  ≡ₚ filter (λ r, SensorData.mac_address r = mac) (sensor_data db).
Proof. apply merge_sort_Permutation. Qed.

Lemma readings_of_sorted db mac : StronglySorted newer (readings_of db mac).
Proof. apply (StronglySorted_merge_sort newer). Qed.

Lemma apply_limit_submseteq {A} (limit : Z) (l : list A) : apply_limit limit l ⊆+ l.
Proof. unfold apply_limit. case_match; [done|apply submseteq_take]. Qed.

Lemma apply_limit_sorted {A} (R : relation A) (limit : Z) (l : list A) :
  StronglySorted R l → StronglySorted R (apply_limit limit l).
Proof.
  unfold apply_limit. case_match; [done|]. intros Hs.
  rewrite <- (take_drop (Z.to_nat limit) l) in Hs.
  by eapply StronglySorted_app_1_l.
Qed.

(** X6.  The readings query of a device raises OverflowError, unhandled,
    when [limit] is not an integer of 64 bits.  Otherwise it returns only
    readings of that identity, each one a stored reading (none more often
    than stored), newest first; [total_records] is their number, at most
    [limit] when the limit is not negative; all of the device's readings are
    returned when the limit is negative or large enough; for an identity
    without readings the body is empty with a total of 0, not an error. *)
Theorem get_sensor_data_spec (db : DB) (mac : string) (limit : Z) :
  (sqlite_int limit = false →
   select_sensor_data db mac limit = inl OverflowError ∧
   get_sensor_data db mac limit = inl OverflowError) ∧
  (sqlite_int limit = true →
   ∃ rows,
     select_sensor_data db mac limit = inr rows ∧
     get_sensor_data db mac limit
     = inr (mkSensorDataBody mac (length rows)
              ((λ d, (SensorData.temperatura d, SensorData.humedad d,
                      SensorData.timestamp d)) <$> rows)) ∧
     Forall (λ r, SensorData.mac_address r = mac) rows ∧
     rows ⊆+ sensor_data db ∧
     StronglySorted newer rows ∧
     (0 ≤ limit → (length rows ≤ Z.to_nat limit)%nat) ∧
     (limit < 0 ∨
      (length (filter (λ r, SensorData.mac_address r = mac) (sensor_data db))
       ≤ Z.to_nat limit)%nat →
      rows ≡ₚ filter (λ r, SensorData.mac_address r = mac) (sensor_data db)) ∧
     ((∀ r, r ∈ sensor_data db → SensorData.mac_address r ≠ mac) → rows = [])).
Proof.
  unfold get_sensor_data, select_sensor_data. split; intros ->; [done|].
  exists (apply_limit limit (readings_of db mac)). split_and!.
  - done.
  - done.
  - apply Forall_forall. intros r Hr.
    eapply elem_of_submseteq in Hr; [|apply apply_limit_submseteq].
    rewrite readings_of_perm in Hr. by apply list_elem_of_filter in Hr as (? & _).
  - etrans; [apply apply_limit_submseteq|]. rewrite readings_of_perm.
    apply sublist_submseteq, sublist_filter.
  - apply apply_limit_sorted, readings_of_sorted.
  - intros Hl. unfold apply_limit.
    destruct (limit <? 0) eqn:Hneg; [lia|]. rewrite length_take. lia.
  - intros Hall. unfold apply_limit.
    destruct (limit <? 0) eqn:Hneg; [apply readings_of_perm|].
    destruct Hall as [?|Hlen]; [lia|].
    rewrite take_ge; [apply readings_of_perm|]. by rewrite readings_of_perm.
  - intros Hnone.
    assert (filter (λ r, SensorData.mac_address r = mac) (sensor_data db) = []) as Hnil.
    { apply elem_of_nil_inv. intros r (Hm & Hr)%list_elem_of_filter.
      by apply (Hnone r). }
    unfold readings_of. rewrite Hnil.
    change (merge_sort newer []) with (@nil SensorData.t). unfold apply_limit.
    destruct (limit <? 0); [done|]. by rewrite take_nil.
Qed.

(** X7.  Startup seeding writes only into an empty codes table and never
    touches devices or readings; its outcome is the database as it was or
    the five sample codes, each unused, never a part of them; and a second
    startup after a seeding that the store did not fail changes nothing. *)
Theorem init_database_restart (db : DB) (clk : Clock) (fault : Fault) :
  (activation_codes db ≠ [] → init_database db clk fault = db) ∧
  (init_database db clk fault = db ∨
   activation_codes db = [] ∧
   Forall2 (λ c '(code, sede_id, sede_nombre),
              ActivationCode.code c = code ∧
              ActivationCode.sede_id c = sede_id ∧
              ActivationCode.sede_nombre c = sede_nombre ∧ fresh_code c)
     (activation_codes (init_database db clk fault)) sample_codes) ∧
  devices (init_database db clk fault) = devices db ∧
  sensor_data (init_database db clk fault) = sensor_data db ∧
  (activation_codes db = [] →
   length (activation_codes (init_database db clk None)) = 5%nat) ∧
  ∀ clk' fault',
    init_database (init_database db clk None) clk' fault'
    = init_database db clk None.
Proof.
  destruct db as [codes devs sd]. destruct codes as [|c codes].
  - unfold init_database at 1 2 3 4 5. simpl. split_and!; [done| |..].
    + unfold commit.
      destruct fault as [[[|[|[|[|[|[|k]]]]]] m]|]; simpl;
        first [ by left | right; split; [done|]; by repeat constructor ].
    + unfold commit.
      by destruct fault as [[[|[|[|[|[|[|k]]]]]] m]|].
    + unfold commit.
      by destruct fault as [[[|[|[|[|[|[|k]]]]]] m]|].
    + done.
    + done.
  - split_and!; try done. by left.
Qed.

Lemma status_rank_cases (d : Q) :
  ((d < 600)%Q ∧ status_of d = ONLINE) ∨
  ((600 <= d)%Q ∧ (d < 3600)%Q ∧ status_of d = STALE) ∨
  ((3600 <= d)%Q ∧ status_of d = OFFLINE).
Proof.
  destruct (Qlt_le_dec d 600) as [H1|H1].
  - left. split; [done|by apply status_of_online].
  - destruct (Qlt_le_dec d 3600) as [H2|H2].
    + right; left. split_and!; [done..|by apply status_of_stale].
    + right; right. split; [done|by apply status_of_offline].
Qed.

(** X15.  The status only degrades as time passes: for elapsed times
    d1 <= d2 the status at d1 is at most the status at d2 in the order
    ONLINE, STALE, OFFLINE. *)
Theorem status_monotone (d1 d2 : Q) :
  (d1 <= d2)%Q →
  (status_rank (status_of d1) ≤ status_rank (status_of d2))%nat.
Proof.
  intros Hle.
  destruct (status_rank_cases d1) as [(H1 & ->)|[(H1 & H1' & ->)|(H1 & ->)]],
           (status_rank_cases d2) as [(H2 & ->)|[(H2 & H2' & ->)|(H2 & ->)]];
    simpl; try lia; exfalso.
  - eapply (Qlt_not_le d2 600); [done|]. by eapply Qle_trans.
  - eapply (Qlt_not_le d2 600); [done|]. eapply Qle_trans; [|exact Hle].
    eapply Qle_trans; [|exact H1]. done.
  - eapply (Qlt_not_le d2 3600); [done|]. by eapply Qle_trans.
Qed.

(** ** Lookups along calls *)

Lemma transition_query_key db db' key j d :
  Transition db db' →
  query_device_by_key db key = Some (j, d) →
  ∃ d', query_device_by_key db' key = Some (j, d') ∧ same_device d d'.
Proof.
  unfold query_device_by_key. intros Ht Hq.
  destruct Ht as [|i c dn now Hi Hu Hmac Hkey Hsid Hsn|i d0 r now Hi Hr|c Hc Hf|l Hl Hf Hnd];
    simpl; try (exists d; split; [done|apply same_device_refl]).
  - exists d. split; [by apply list_find_app_l|apply same_device_refl].
  - rewrite list_find_alter_stable, Hq by (intros; apply touch_last_seen_key).
    simpl. destruct (decide (j = i));
      eexists; (split; [done|]); auto using same_device_refl, same_device_touch.
Qed.

Lemma transition_query_code db db' k i c :
  Transition db db' →
  query_code db k = Some (i, c) →
  ∃ c', query_code db' k = Some (i, c') ∧ same_code c c'.
Proof.
  unfold query_code. intros Ht Hq.
  destruct Ht as [|i0 c0 dn now Hi Hu Hmac Hkey Hsid Hsn|i0 d0 r now Hi Hr|c0 Hc Hf|l Hl Hf Hnd];
    simpl; try (exists c; split; [done|apply same_code_refl]).
  - rewrite list_find_alter_stable, Hq by (intros; apply mark_used_code).
    simpl. destruct (decide (i = i0)); eexists; (split; [done|]);
      [by repeat split|apply same_code_refl].
  - exists c. split; [by apply list_find_app_l|apply same_code_refl].
  - by rewrite Hl in Hq.
Qed.

Section Compose.
Variable upper : string → string.

Lemma run_query_key db calls key j d :
  query_device_by_key db key = Some (j, d) →
  ∃ d', query_device_by_key (run upper db calls) key = Some (j, d') ∧
        same_device d d'.
Proof.
  revert db d. induction calls as [|call calls IH]; intros db d Hq.
  - exists d. split; [done|apply same_device_refl].
  - simpl.
    destruct (transition_query_key _ _ key j d (step_transition upper db call) Hq)
      as (d1 & Hq1 & Hs1).
    destruct (IH _ _ Hq1) as (d2 & Hq2 & Hs2).
    exists d2. split; [done|]. by eapply same_device_trans.
Qed.

Lemma run_query_code db calls k i c :
  query_code db k = Some (i, c) →
  ∃ c', query_code (run upper db calls) k = Some (i, c') ∧ same_code c c'.
Proof.
  revert db c. induction calls as [|call calls IH]; intros db c Hq.
  - exists c. split; [done|apply same_code_refl].
  - simpl.
    destruct (transition_query_code _ _ k i c (step_transition upper db call) Hq)
      as (c1 & Hq1 & Hs1).
    destruct (IH _ _ Hq1) as (c2 & Hq2 & Hs2).
    exists c2. split; [done|]. by eapply same_code_trans.
Qed.

(** [create_activation_code] when the code is new and the store does not
    fail. *)
Lemma create_activation_code_new db request clk :
  query_code db (upper (CreateCodeRequest.code request)) = None →
  let c := ActivationCode.mk (upper (CreateCodeRequest.code request))
             (CreateCodeRequest.sede_id request)
             (CreateCodeRequest.sede_nombre request) false None None (clk 0%nat) in
  create_activation_code upper db request clk None
  = (mkDB (activation_codes db ++ [c]) (devices db) (sensor_data db),
     Ok (mkCreateCodeBody (upper (CreateCodeRequest.code request))
           (CreateCodeRequest.sede_nombre request)
           "Código de activación creado exitosamente")) ∧
  query_code (mkDB (activation_codes db ++ [c]) (devices db) (sensor_data db))
    (upper (CreateCodeRequest.code request))
  = Some (length (activation_codes db), c).
Proof.
  intros Hq c. split.
  - unfold create_activation_code. rewrite Hq. unfold commit. simpl. by rewrite Hq.
  - unfold query_code in *. simpl. rewrite list_find_app_r by done. simpl.
    by rewrite decide_True.
Qed.

(** X8.  A code created through createCode can be redeemed: when the code
    is new, an activate call that presents the same code in any letter case,
    for an identity without device and with a new credential, succeeds
    (the store not failing), registers the device under the site given at
    creation and leaves the created code used by that identity. *)
Theorem create_then_activate (db : DB) (crequest : CreateCodeRequest.t)
    (clk : Clock) (request : ActivateRequest.t) (api_key : string) (aclk : Clock) :
  query_code db (upper (CreateCodeRequest.code crequest)) = None →
  upper (ActivateRequest.code request) = upper (CreateCodeRequest.code crequest) →
  query_device_by_mac db (ActivateRequest.mac_address request) = None →
  query_device_by_key db api_key = None →
  let r1 := create_activation_code upper db crequest clk None in
  let r2 := activate_device upper (fst r1) request api_key aclk None in
  snd r1 = Ok (mkCreateCodeBody (upper (CreateCodeRequest.code crequest))
                 (CreateCodeRequest.sede_nombre crequest)
                 "Código de activación creado exitosamente") ∧
  snd r2 = Ok (mkActivateBody (CreateCodeRequest.sede_id crequest)
                 (CreateCodeRequest.sede_nombre crequest) api_key
                 "Dispositivo activado exitosamente") ∧
  devices (fst r2)
  = (devices db ++
     [Device.mk (ActivateRequest.mac_address request)
        (CreateCodeRequest.sede_id crequest)
        (CreateCodeRequest.sede_nombre crequest) api_key
        (aclk 1%nat) (aclk 2%nat)])%list ∧
  activation_codes (fst r2)
  = (activation_codes db ++
     [ActivationCode.mk (upper (CreateCodeRequest.code crequest))
        (CreateCodeRequest.sede_id crequest)
        (CreateCodeRequest.sede_nombre crequest) true
        (Some (ActivateRequest.mac_address request)) (Some (aclk 0%nat))
        (clk 0%nat)])%list.
Proof.
  intros Hq Hsame Hm Hk r1 r2. subst r1 r2.
  destruct (create_activation_code_new db crequest clk Hq) as [-> Hq1].
  cbn [fst snd].
  assert (query_code
            (mkDB (activation_codes db ++
                   [ActivationCode.mk (upper (CreateCodeRequest.code crequest))
                      (CreateCodeRequest.sede_id crequest)
                      (CreateCodeRequest.sede_nombre crequest)
                      false None None (clk 0%nat)])
                  (devices db) (sensor_data db))
            (upper (ActivateRequest.code request))
          = Some (length (activation_codes db),
                  ActivationCode.mk (upper (CreateCodeRequest.code crequest))
                    (CreateCodeRequest.sede_id crequest)
                    (CreateCodeRequest.sede_nombre crequest)
                    false None None (clk 0%nat))) as Hq2
    by (rewrite Hsame; exact Hq1).
  destruct (activate_device_new upper _ request api_key aclk None _ _ Hq2
              eq_refl Hm)
    as [(_ & _ & ->)|(e & [(k & m & ? & _)|Hsome] & _)];
    [|done|unfold query_device_by_key in *; simpl in Hsome;
           rewrite Hk in Hsome; by destruct Hsome].
  simpl. split_and!; try done.
  rewrite <- (Nat.add_0_r (length (activation_codes db))).
  by rewrite alter_app_r.
Qed.

(** X9.  After a createCode call that the store did not fail, whatever its
    answer, every later createCode for the same code in any letter case,
    after any sequence of calls, is refused with 409 and writes nothing. *)
Theorem create_twice_conflict (db : DB) (request : CreateCodeRequest.t)
    (clk : Clock) (calls : list Call) (request' : CreateCodeRequest.t)
    (clk' : Clock) (fault' : Fault) :
  upper (CreateCodeRequest.code request') = upper (CreateCodeRequest.code request) →
  let db1 := fst (create_activation_code upper db request clk None) in
  create_activation_code upper (run upper db1 calls) request' clk' fault'
  = (run upper db1 calls, HTTPException 409 "Código ya existe").
Proof.
  intros Hsame db1.
  assert (∃ i c, query_code db1 (upper (CreateCodeRequest.code request)) = Some (i, c))
    as (i & c & Hq1).
  { subst db1.
    destruct (query_code db (upper (CreateCodeRequest.code request)))
      as [[i c]|] eqn:Hq.
    - exists i, c. unfold create_activation_code. by rewrite Hq.
    - destruct (create_activation_code_new db request clk Hq) as [-> Hq1].
      by do 2 eexists. }
  destruct (run_query_code db1 calls _ _ _ Hq1) as (c' & Hq2 & _).
  unfold create_activation_code. by rewrite Hsame, Hq2.
Qed.

(** X10.  The credential returned by a first activation authenticates
    that device from then on: after any sequence of further calls, an ingest
    call with it (the store not failing) succeeds, answers with the
    identity and the site name of the activation, and appends one reading
    carrying that identity. *)
Theorem activate_then_ingest (db : DB) (request : ActivateRequest.t)
    (api_key : string) (clk : Clock) (i : nat) (c : ActivationCode.t)
    (calls : list Call) (urequest : UpdateRequest.t) (uclk : Clock) :
  query_code db (upper (ActivateRequest.code request)) = Some (i, c) →
  ActivationCode.is_used c = false →
  query_device_by_mac db (ActivateRequest.mac_address request) = None →
  query_device_by_key db api_key = None →
  api_key ≠ "" →
  let db1 := fst (activate_device upper db request api_key clk None) in
  let db2 := run upper db1 calls in
  let r := receive_sensor_data db2 urequest (Some api_key) uclk None in
  snd r = Ok (mkUpdateBody "Datos recibidos correctamente"
                (ActivationCode.sede_nombre c)
                (ActivateRequest.mac_address request) (uclk 2%nat)) ∧
  sensor_data (fst r)
  = (sensor_data db2 ++
     [SensorData.mk (ActivateRequest.mac_address request)
        (UpdateRequest.temperatura urequest) (UpdateRequest.humedad urequest)
        (uclk 1%nat)])%list.
Proof.
  intros Hc Hu Hm Hk Hne db1 db2 r. subst r db2 db1.
  destruct (activate_device_new upper db request api_key clk None i c Hc Hu Hm)
    as [(_ & _ & ->)|(e & [(k & m & ? & _)|Hsome] & _)];
    [|done|rewrite Hk in Hsome; by destruct Hsome].
  cbn [fst]. set (db1 := mkDB _ _ _).
  assert (query_device_by_key db1 api_key
          = Some (length (devices db),
                  Device.mk (ActivateRequest.mac_address request)
                    (ActivationCode.sede_id c) (ActivationCode.sede_nombre c)
                    api_key (clk 1%nat) (clk 2%nat))) as Hq1.
  { unfold query_device_by_key in *. unfold db1. simpl.
    rewrite list_find_app_r by done. simpl. by rewrite decide_True. }
  destruct (run_query_key db1 calls _ _ _ Hq1)
    as (d' & Hq2 & Hmac & _ & Hsn & _ & _).
  simpl in Hmac, Hsn.
  unfold receive_sensor_data. destruct api_key as [|a key]; [done|].
  rewrite Hq2. unfold commit. simpl. by rewrite Hmac, Hsn.
Qed.
End Compose.

Lemma readings_of_nil db mac :
  (∀ r, r ∈ sensor_data db → SensorData.mac_address r ≠ mac) →
  readings_of db mac = [].
Proof.
  intros Hnone. unfold readings_of.
  assert (filter (λ r, SensorData.mac_address r = mac) (sensor_data db) = []) as ->;
    [|done].
  apply elem_of_nil_inv. intros r (Hm & Hr)%list_elem_of_filter.
  by apply (Hnone r).
Qed.

Lemma unregistered_no_readings db mac :
  readings_registered db → query_device_by_mac db mac = None →
  ∀ r, r ∈ sensor_data db → SensorData.mac_address r ≠ mac.
Proof.
  intros Hreg Hq r Hr Hmac. destruct (Hreg r Hr) as (d & Hd & Heq).
  destruct (list_find_elem_of (λ d, Device.mac_address d = mac) (devices db) d)
    as [p Hp]; [done|congruence|].
  unfold query_device_by_mac in Hq. congruence.
Qed.

(** X13.  A successful ingest makes the device ONLINE whatever its status
    was: the row found by the credential is the same device with [last_seen]
    set to the handler's clock reading, and its status is ONLINE at every
    time less than 600 seconds after that reading. *)
Theorem ingest_makes_online (db : DB) (request : UpdateRequest.t)
    (key : string) (clk : Clock) (i : nat) (d : Device.t) :
  key ≠ "" →
  query_device_by_key db key = Some (i, d) →
  let db' := fst (receive_sensor_data db request (Some key) clk None) in
  ∃ d',
    query_device_by_key db' key = Some (i, d') ∧
    same_device d d' ∧
    Device.last_seen d' = clk 0%nat ∧
    ∀ now, now - clk 0%nat < 600 * 1000000 → device_status now d' = ONLINE.
Proof.
  intros Hne Hq db'. subst db'. unfold receive_sensor_data.
  destruct key as [|a key]; [done|]. rewrite Hq. unfold commit. simpl.
  exists (touch_last_seen d (clk 0%nat)). split_and!.
  - unfold query_device_by_key in *. simpl.
    apply (list_find_alter_same _ (λ d0, touch_last_seen d0 (clk 0%nat)));
      [intros; apply touch_last_seen_key|done].
  - apply same_device_touch.
  - done.
  - intros now Hnow. apply status_of_online.
    unfold device_status, total_seconds, Qlt. simpl. lia.
Qed.

Section Panel.
Variable upper : string → string.

(** X14.  Where every stored reading belongs to a registered device, a
    device created by a first activation has no readings: its readings
    query, for a limit of 64 bits, is empty with a total of 0, and its panel
    row shows ONLINE with no measurement during the 600 seconds after its
    [last_seen]. *)
Theorem new_device_panel_row (db : DB) (request : ActivateRequest.t)
    (api_key : string) (clk : Clock) (i : nat) (c : ActivationCode.t) (limit : Z) :
  readings_registered db →
  query_code db (upper (ActivateRequest.code request)) = Some (i, c) →
  ActivationCode.is_used c = false →
  query_device_by_mac db (ActivateRequest.mac_address request) = None →
  query_device_by_key db api_key = None →
  sqlite_int limit = true →
  let db1 := fst (activate_device upper db request api_key clk None) in
  let d := Device.mk (ActivateRequest.mac_address request)
             (ActivationCode.sede_id c) (ActivationCode.sede_nombre c)
             api_key (clk 1%nat) (clk 2%nat) in
  devices db1 !! length (devices db) = Some d ∧
  get_sensor_data db1 (ActivateRequest.mac_address request) limit
  = inr (mkSensorDataBody (ActivateRequest.mac_address request) 0 []) ∧
  ∀ now,
    now - clk 2%nat < 600 * 1000000 →
    panel_row db1 now d
    = mkPanelRow ONLINE (ActivateRequest.mac_address request)
        (ActivationCode.sede_nombre c) None (clk 2%nat).
Proof.
  intros Hreg Hc Hu Hm Hk Hlimit db1 d. subst db1.
  pose proof (unregistered_no_readings db _ Hreg Hm) as Hnone.
  destruct (activate_device_new upper db request api_key clk None i c Hc Hu Hm)
    as [(_ & _ & ->)|(e & [(k & m & ? & _)|Hsome] & _)];
    [|done|rewrite Hk in Hsome; by destruct Hsome].
  cbn [fst]. set (db1 := mkDB _ _ _).
  assert (readings_of db1 (ActivateRequest.mac_address request) = []) as Hnil
    by (by apply readings_of_nil).
  split_and!.
  - unfold db1. simpl. by rewrite lookup_app_r, Nat.sub_diag.
  - unfold get_sensor_data, select_sensor_data. rewrite Hlimit, Hnil.
    unfold apply_limit. destruct (limit <? 0); [done|]. by rewrite take_nil.
  - intros now Hnow. unfold panel_row, latest_data. subst d. simpl. rewrite Hnil.
    simpl. f_equal. apply status_of_online.
    unfold total_seconds, Qlt. simpl. lia.
Qed.

(** X16.  A successful first activation moves exactly one code from
    available to used in the listing, leaves the total of codes and the
    number of readings as they were, and adds exactly one device. *)
Theorem activation_moves_one_code (db : DB) (request : ActivateRequest.t)
    (api_key : string) (clk : Clock) (i : nat) (c : ActivationCode.t) :
  query_code db (upper (ActivateRequest.code request)) = Some (i, c) →
  ActivationCode.is_used c = false →
  query_device_by_mac db (ActivateRequest.mac_address request) = None →
  query_device_by_key db api_key = None →
  let db1 := fst (activate_device upper db request api_key clk None) in
  S (cl_available (list_activation_codes db1))
  = cl_available (list_activation_codes db) ∧
  cl_used (list_activation_codes db1) = S (cl_used (list_activation_codes db)) ∧
  cl_total (list_activation_codes db1) = cl_total (list_activation_codes db) ∧
  length (devices db1) = S (length (devices db)) ∧
  total_readings db1 = total_readings db.
Proof.
  intros Hc Hu Hm Hk db1. subst db1.
  destruct (activate_device_new upper db request api_key clk None i c Hc Hu Hm)
    as [(_ & _ & ->)|(e & [(k & m & ? & _)|Hsome] & _)];
    [|done|rewrite Hk in Hsome; by destruct Hsome].
  pose proof (list_find_lookup _ _ _ _ Hc) as Hi.
  unfold list_activation_codes. simpl. split_and!.
  - by apply (length_filter_alter_loss _ _ _ _ c).
  - apply (length_filter_alter_gain _ _ _ _ c); [done|congruence|done].
  - by rewrite length_alter.
  - rewrite length_app. simpl. lia.
  - done.
Qed.
End Panel.

(** ** The further properties at the scenario *)

Lemma unique_columns_invariant_witness :
  unique_columns empty_db ∧ unique_columns (run str_upper empty_db scenario_calls).
Proof.
  assert (unique_columns empty_db) as Hinit.
  { unfold unique_columns. simpl. split_and!; constructor. }
  split; [exact Hinit|].
  exact (proj1 (unique_columns_invariant str_upper empty_db scenario_calls Hinit)).
Defined.

Lemma devices_match_used_codes_witness :
  linked empty_db ∧ linked (run str_upper empty_db scenario_calls).
Proof.
  assert (linked empty_db) as Hinit.
  { unfold linked. simpl.
    split_and!; [by intros c ?%elem_of_nil|by intros d ?%elem_of_nil|done]. }
  split; [exact Hinit|].
  exact (proj1 (devices_match_used_codes str_upper empty_db scenario_calls Hinit)).
Defined.

Lemma readings_belong_to_devices_witness :
  readings_registered empty_db ∧
  readings_registered (run str_upper empty_db scenario_calls).
Proof.
  assert (readings_registered empty_db) as Hinit by (by intros r ?%elem_of_nil).
  split; [exact Hinit|].
  exact (proj1 (readings_belong_to_devices str_upper empty_db scenario_calls Hinit)).
Defined.

Lemma create_then_activate_witness :
  snd (activate_device str_upper
         (fst (create_activation_code str_upper empty_db req_create tick None))
         req_activate "KEY1" tick None)
  = Ok (mkActivateBody "S1" "Site One" "KEY1" "Dispositivo activado exitosamente").
Proof.
  destruct (create_then_activate str_upper empty_db req_create tick req_activate
              "KEY1" tick eq_refl eq_refl eq_refl eq_refl) as (_ & H & _).
  exact H.
Defined.

Lemma create_twice_conflict_witness :
  create_activation_code str_upper
    (run str_upper db_code [POST_activate req_activate "KEY1" tick None])
    (CreateCodeRequest.mk "Abc-123" "S9" "Site Nine") tock None
  = (run str_upper db_code [POST_activate req_activate "KEY1" tick None],
     HTTPException 409 "Código ya existe").
Proof.
  exact (create_twice_conflict str_upper empty_db req_create tick
           [POST_activate req_activate "KEY1" tick None]
           (CreateCodeRequest.mk "Abc-123" "S9" "Site Nine") tock None eq_refl).
Defined.

Lemma activate_then_ingest_witness :
  snd (receive_sensor_data db_two_codes req_update (Some "KEY1") tock None)
  = Ok (mkUpdateBody "Datos recibidos correctamente" "Site One" "AA:BB:CC" 5000002).
Proof.
  assert ("KEY1" ≠ "") as Hne by discriminate.
  destruct (activate_then_ingest str_upper db_code req_activate "KEY1" tick
              0%nat code_unused
              [POST_activation_codes (CreateCodeRequest.mk "xyz-9" "S2" "Site Two")
                 tick None]
              req_update tock eq_refl eq_refl eq_refl eq_refl Hne) as [H _].
  exact H.
Defined.

Lemma ingest_makes_online_witness :
  device_status 10000000000 dev_active = OFFLINE ∧
  ∃ d',
    query_device_by_key
      (fst (receive_sensor_data db_active req_update (Some "KEY1")
              (tick_from 10000000000) None)) "KEY1"
    = Some (0%nat, d') ∧
    device_status 10000000000 d' = ONLINE.
Proof.
  split; [reflexivity|].
  assert ("KEY1" ≠ "") as Hne by discriminate.
  destruct (ingest_makes_online db_active req_update "KEY1"
              (tick_from 10000000000) 0%nat dev_active Hne eq_refl)
    as (d' & Hq & _ & _ & Hnow).
  exists d'. split; [exact Hq|]. apply Hnow. reflexivity.
Defined.

Lemma new_device_panel_row_witness :
  get_sensor_data db_active "AA:BB:CC" 100
  = inr (mkSensorDataBody "AA:BB:CC" 0 []) ∧
  panel_row db_active 3 dev_active
  = mkPanelRow ONLINE "AA:BB:CC" "Site One" None 2.
Proof.
  assert (readings_registered db_code) as Hreg by (by intros r ?%elem_of_nil).
  destruct (new_device_panel_row str_upper db_code req_activate "KEY1" tick
              0%nat code_unused 100 Hreg eq_refl eq_refl eq_refl eq_refl eq_refl)
    as (_ & Hdata & Hrow).
  split; [exact Hdata|]. apply Hrow. reflexivity.
Defined.

Lemma status_monotone_witness :
  (status_rank (status_of 599) ≤ status_rank (status_of 3600))%nat.
Proof.
  apply status_monotone. unfold Qle. simpl. lia.
Defined.

Lemma activation_moves_one_code_witness :
  cl_used (list_activation_codes db_active)
  = S (cl_used (list_activation_codes db_code)) ∧
  S (cl_available (list_activation_codes db_active))
  = cl_available (list_activation_codes db_code).
Proof.
  destruct (activation_moves_one_code str_upper db_code req_activate "KEY1" tick
              0%nat code_unused eq_refl eq_refl eq_refl eq_refl)
    as (Havail & Hused & _).
  split; [exact Hused|exact Havail].
Defined.

(** Two readings of the scenario's device, asked for with and without a
    bound: newest first; and a limit of more than 64 bits. *)
Example readings_newest_first :
  let db1 := run str_upper empty_db scenario_calls in
  let db2 :=
    fst (receive_sensor_data db1 (UpdateRequest.mk (45 # 2) (50 # 1))
           (Some "KEY1") (tick_from 9000000) None) in
  get_sensor_data db2 "AA:BB:CC" 100
  = inr (mkSensorDataBody "AA:BB:CC" 2
           [(45 # 2, 50 # 1, 9000001); (43 # 2, 55 # 1, 5000001)]) ∧
  get_sensor_data db2 "AA:BB:CC" 1
  = inr (mkSensorDataBody "AA:BB:CC" 1 [(45 # 2, 50 # 1, 9000001)]) ∧
  get_sensor_data db2 "11:22:33" 100 = inr (mkSensorDataBody "11:22:33" 0 []) ∧
  get_sensor_data db2 "AA:BB:CC" (2 ^ 63) = inl OverflowError.
Proof. by split_and!. Qed.

(** * Store failures at every access *)

Lemma flush_late_fault db ws k m :
  (length ws < k)%nat → flush db ws (Some (k, m)) = flush db ws None.
Proof.
  revert db k. induction ws as [|w ws IH]; intros db k Hk;
    (destruct k as [|k]; [simpl in Hk; lia|]); simpl; [done|].
  destruct (apply_write db w) as [e|db']; [done|].
  apply IH. simpl in Hk. lia.
Qed.

Lemma commit_late_fault db ws k m :
  (length ws < k)%nat → commit db ws (Some (k, m)) = commit db ws None.
Proof. intros Hk. unfold commit. by rewrite flush_late_fault. Qed.

Section Refinement.
Variable upper : string → string.

(** The handlers of the first part are these handlers when the failure, if
    any, is one of the flush or of COMMIT. *)
Lemma activate_device_io_flush db request api_key clk fault :
  activate_device_io upper db request api_key clk (at_flush 2 2 fault)
  = activate_device upper db request api_key clk fault.
Proof.
  unfold activate_device_io, activate_device, at_flush, fails_at, flush_fault.
  destruct fault as [[[|[|[|k]]] m]|];
    cbn [Nat.leb Nat.eqb Nat.add Nat.sub];
    rewrite ?commit_late_fault by (simpl; lia); reflexivity.
Qed.

Lemma receive_sensor_data_io_flush db request x_api_key clk fault :
  receive_sensor_data_io db request x_api_key clk (at_flush 1 2 fault)
  = receive_sensor_data db request x_api_key clk fault.
Proof.
  unfold receive_sensor_data_io, receive_sensor_data, at_flush, fails_at, flush_fault.
  destruct fault as [[[|[|[|k]]] m]|];
    cbn [Nat.leb Nat.eqb Nat.add Nat.sub];
    rewrite ?commit_late_fault by (simpl; lia); reflexivity.
Qed.

Lemma create_activation_code_io_flush db request clk fault :
  create_activation_code_io upper db request clk (at_flush 1 1 fault)
  = create_activation_code upper db request clk fault.
Proof.
  unfold create_activation_code_io, create_activation_code, at_flush, fails_at, flush_fault.
  destruct fault as [[[|[|k]] m]|];
    cbn [Nat.leb Nat.eqb Nat.add Nat.sub];
    rewrite ?commit_late_fault by (simpl; lia); reflexivity.
Qed.
End Refinement.

(** The branches of a handler under a failure at a known access. *)
Ltac failure_cases io :=
  destruct io as [[[|[|[|[|[|[|?]]]]]] ?]|];
  unfold fails_at, flush_fault, fails_before, commit;
  cbn [Nat.leb Nat.eqb Nat.ltb Nat.sub flush apply_write next_fault].

Section Outcomes.
Variable upper : string → string.

Lemma activate_device_io_unknown db request api_key clk io :
  query_code db (upper (ActivateRequest.code request)) = None →
  let r := activate_device_io upper db request api_key clk io in
  (fails_before io 1 = true ∧ ∃ detail, r = (db, HTTPException 500 detail)) ∨
  (fails_before io 1 = false ∧
   r = (db, HTTPException 404 "Código de activación no encontrado")).
Proof.
  intros Hc r. subst r. unfold activate_device_io. rewrite Hc.
  failure_cases io; first [left; split; [done|by eexists] | by right].
Qed.

Lemma activate_device_io_used db request api_key clk io i c :
  query_code db (upper (ActivateRequest.code request)) = Some (i, c) →
  ActivationCode.is_used c = true →
  let r := activate_device_io upper db request api_key clk io in
  (fails_before io 1 = true ∧ ∃ detail, r = (db, HTTPException 500 detail)) ∨
  (fails_before io 1 = false ∧
   r = (db, HTTPException 422
              ("Código ya utilizado por " +:+
               format_mac (ActivationCode.used_by_mac c)))).
Proof.
  intros Hc Hu r. subst r. unfold activate_device_io. rewrite Hc, Hu.
  failure_cases io; first [left; split; [done|by eexists] | by right].
Qed.

Lemma activate_device_io_registered db request api_key clk io i c j d :
  query_code db (upper (ActivateRequest.code request)) = Some (i, c) →
  ActivationCode.is_used c = false →
  query_device_by_mac db (ActivateRequest.mac_address request) = Some (j, d) →
  let r := activate_device_io upper db request api_key clk io in
  (fails_before io 2 = true ∧ ∃ detail, r = (db, HTTPException 500 detail)) ∨
  (fails_before io 1 = false ∧ fails_before io 2 = false ∧
   r = (db, Ok (mkActivateBody (Device.sede_id d) (Device.sede_nombre d)
                  (Device.api_key d) "Dispositivo ya estaba registrado"))).
Proof.
  intros Hc Hu Hm r. subst r. unfold activate_device_io. rewrite Hc, Hu, Hm.
  failure_cases io; first [left; split; [done|by eexists] | by right].
Qed.

Lemma activate_device_io_new db request api_key clk io i c :
  query_code db (upper (ActivateRequest.code request)) = Some (i, c) →
  ActivationCode.is_used c = false →
  query_device_by_mac db (ActivateRequest.mac_address request) = None →
  let r := activate_device_io upper db request api_key clk io in
  let db' :=
    mkDB (alter (λ c, mark_used c (ActivateRequest.mac_address request) (clk 0%nat))
            i (activation_codes db))
         (devices db ++ [Device.mk (ActivateRequest.mac_address request)
                           (ActivationCode.sede_id c) (ActivationCode.sede_nombre c)
                           api_key (clk 1%nat) (clk 2%nat)])
         (sensor_data db) in
  ((fails_before io 5 = true ∧ fails_before io 6 = true ∨
    is_Some (query_device_by_key db api_key)) ∧
   ∃ detail, r = (db, HTTPException 500 detail)) ∨
  (query_device_by_key db api_key = None ∧
   fails_before io 2 = false ∧ fails_before io 5 = false ∧
   fails_before io 6 = true ∧
   ∃ m, io = Some (5%nat, m) ∧
        r = (db', HTTPException 500 ("Error interno: " +:+ m))) ∨
  (query_device_by_key db api_key = None ∧
   fails_before io 1 = false ∧ fails_before io 2 = false ∧
   fails_before io 5 = false ∧ fails_before io 6 = false ∧
   r = (db', Ok (mkActivateBody (ActivationCode.sede_id c)
                   (ActivationCode.sede_nombre c) api_key
                   "Dispositivo activado exitosamente"))).
Proof.
  intros Hc Hu Hm r db'. subst r db'. unfold activate_device_io.
  rewrite Hc, Hu, Hm.
  destruct (query_device_by_key db api_key) as [p|] eqn:Hk.
  - left. split; [by right|].
    failure_cases io; repeat first [progress simpl | rewrite Hm | rewrite Hk];
      by eexists.
  - failure_cases io; repeat first [progress simpl | rewrite Hm | rewrite Hk];
      first [ left; split; [by left|by eexists]
            | right; left; split_and!; try done; by eexists
            | right; right; by split_and! ].
Qed.

Lemma receive_sensor_data_io_unknown db request a key clk io :
  query_device_by_key db (String a key) = None →
  let r := receive_sensor_data_io db request (Some (String a key)) clk io in
  (fails_before io 1 = true ∧ ∃ detail, r = (db, HTTPException 500 detail)) ∨
  (fails_before io 1 = false ∧ r = (db, HTTPException 401 "API Key inválida")).
Proof.
  intros Hq r. subst r. unfold receive_sensor_data_io. rewrite Hq.
  failure_cases io; first [left; split; [done|by eexists] | by right].
Qed.

Lemma receive_sensor_data_io_known db request a key clk io i d :
  query_device_by_key db (String a key) = Some (i, d) →
  let r := receive_sensor_data_io db request (Some (String a key)) clk io in
  let db' :=
    mkDB (activation_codes db)
         (alter (λ d, touch_last_seen d (clk 0%nat)) i (devices db))
         (sensor_data db ++
          [SensorData.mk (Device.mac_address d) (UpdateRequest.temperatura request)
             (UpdateRequest.humedad request) (clk 1%nat)]) in
  (fails_before io 4 = true ∧ fails_before io 5 = true ∧
   ∃ detail, r = (db, HTTPException 500 detail)) ∨
  (fails_before io 1 = false ∧ fails_before io 4 = false ∧
   fails_before io 5 = true ∧
   ∃ m, io = Some (4%nat, m) ∧
        r = (db', HTTPException 500 ("Error interno: " +:+ m))) ∨
  (fails_before io 1 = false ∧ fails_before io 4 = false ∧
   fails_before io 5 = false ∧
   r = (db', Ok (mkUpdateBody "Datos recibidos correctamente"
                   (Device.sede_nombre d) (Device.mac_address d) (clk 2%nat)))).
Proof.
  intros Hq r db'. subst r db'. unfold receive_sensor_data_io. rewrite Hq.
  failure_cases io; simpl;
    first [ left; split_and!; try done; by eexists
          | right; left; split_and!; try done; by eexists
          | right; right; by split_and! ].
Qed.
End Outcomes.

(** A condition on the request, the tables and the failure that the context
    refutes. *)
Ltac refute_condition :=
  repeat match goal with
         | H : ∃ _, _ |- _ => destruct H
         | H : _ ∧ _ |- _ => destruct H
         | H : _ ∨ _ |- _ => destruct H
         | H : is_Some None |- _ => by destruct H
         end;
  simplify_eq;
  try match goal with
      | H : ?x = None, H' : is_Some ?x |- _ => rewrite H in H'; by destruct H'
      end;
  congruence.

(** One equivalence between the shape of an answer and its condition, once
    the answer is known. *)
Ltac answer_iff tac :=
  split;
  [ intros [? Heq]; first [ discriminate Heq | tac ]
  | intros Hcond; first [ by eexists | refute_condition ] ].

Ltac answer_status :=
  intros ?? Heq; first [ discriminate Heq | injection Heq as <- <-; auto ].

Section Answers.
Variable upper : string → string.

(** X11.  The answer of activate is decided by the request, the tables and
    the access at which the store fails, if any: 404 exactly when the lookup
    of the code does not fail and no stored code equals the uppercased code;
    422 exactly when that lookup does not fail and the code is used; success
    exactly when the code is unused and either the identity has a device and
    no lookup fails, or it has none, the credential is new and no access
    fails, the reload after the commit included; 500 in every other case.
    No other status is raised. *)
Theorem activate_response_cases (db : DB) (request : ActivateRequest.t)
    (api_key : string) (clk : Clock) (io : StoreFailure) :
  let r := snd (activate_device_io upper db request api_key clk io) in
  let found := query_code db (upper (ActivateRequest.code request)) in
  let registered := query_device_by_mac db (ActivateRequest.mac_address request) in
  ((∃ detail, r = HTTPException 404 detail) ↔
   fails_before io 1 = false ∧ found = None) ∧
  ((∃ detail, r = HTTPException 422 detail) ↔
   fails_before io 1 = false ∧
   ∃ i c, found = Some (i, c) ∧ ActivationCode.is_used c = true) ∧
  ((∃ body, r = Ok body) ↔
   ∃ i c, found = Some (i, c) ∧ ActivationCode.is_used c = false ∧
          (is_Some registered ∧ fails_before io 2 = false ∨
           registered = None ∧ query_device_by_key db api_key = None ∧
           fails_before io 6 = false)) ∧
  ((∃ detail, r = HTTPException 500 detail) ↔
   fails_before io 1 = true ∨
   ∃ i c, found = Some (i, c) ∧ ActivationCode.is_used c = false ∧
          (fails_before io 2 = true ∨
           registered = None ∧
           (fails_before io 6 = true ∨ is_Some (query_device_by_key db api_key)))) ∧
  ∀ status detail,
    r = HTTPException status detail →
    status = 404%nat ∨ status = 422%nat ∨ status = 500%nat.
Proof.
  intros r found registered. subst r found registered.
  destruct (query_code db (upper (ActivateRequest.code request)))
    as [[i c]|] eqn:Hc.
  2:{ destruct (activate_device_io_unknown upper db request api_key clk io Hc)
        as [(Hb & detail & ->)|(Hb & ->)]; cbn [snd];
        (split_and!; [answer_iff ltac:(by (split || left))..|answer_status]). }
  destruct (ActivationCode.is_used c) eqn:Hu.
  { destruct (activate_device_io_used upper db request api_key clk io i c Hc Hu)
      as [(Hb & detail & ->)|(Hb & ->)]; cbn [snd];
      (split_and!;
       [answer_iff ltac:(first [by left | split; [done|by exists i, c]])..
       |answer_status]). }
  destruct (query_device_by_mac db (ActivateRequest.mac_address request))
    as [[j d]|] eqn:Hm.
  { destruct (activate_device_io_registered upper db request api_key clk io i c j d
                Hc Hu Hm)
      as [(Hb & detail & ->)|(Hb1 & Hb2 & ->)]; cbn [snd];
      (split_and!;
       [answer_iff ltac:(first [ right; exists i, c; split_and!; try done; by left
                               | exists i, c; split_and!; try done; by left ])..
       |answer_status]). }
  destruct (activate_device_io_new upper db request api_key clk io i c Hc Hu Hm)
    as [([(Hb5 & Hb6)|Hk] & detail & ->)
       |[(Hk & Hb2 & Hb5 & Hb6 & m & -> & ->)
        |(Hk & Hb1 & Hb2 & Hb5 & Hb6 & ->)]]; cbn [snd];
    (split_and!;
     [answer_iff ltac:(first
        [ right; exists i, c; split_and!; try done; right; split; [done|];
          first [by left | by right]
        | exists i, c; split_and!; try done; right; by split_and! ])..
     |answer_status]).
Qed.
End Answers.

(** X12.  The answer of ingest is decided by the header, the tables and
    the access at which the store fails, if any: 401 exactly when the
    credential is missing or empty, or the lookup does not fail and finds no
    device; success exactly when the credential is known and no access
    fails, the reload after the commit included; 500 exactly when the
    credential is not empty and the lookup fails, or it is known and a later
    access fails.  No other status is raised. *)
Theorem ingest_response_cases (db : DB) (request : UpdateRequest.t)
    (x_api_key : option string) (clk : Clock) (io : StoreFailure) :
  let r := snd (receive_sensor_data_io db request x_api_key clk io) in
  ((∃ detail, r = HTTPException 401 detail) ↔
   x_api_key = None ∨ x_api_key = Some "" ∨
   ∃ key, x_api_key = Some key ∧ fails_before io 1 = false ∧
          query_device_by_key db key = None) ∧
  ((∃ body, r = Ok body) ↔
   ∃ key i d,
     x_api_key = Some key ∧ key ≠ "" ∧
     query_device_by_key db key = Some (i, d) ∧ fails_before io 5 = false) ∧
  ((∃ detail, r = HTTPException 500 detail) ↔
   ∃ key,
     x_api_key = Some key ∧ key ≠ "" ∧
     (fails_before io 1 = true ∨
      is_Some (query_device_by_key db key) ∧ fails_before io 5 = true)) ∧
  ∀ status detail,
    r = HTTPException status detail → status = 401%nat ∨ status = 500%nat.
Proof.
  intros r. subst r.
  destruct x_api_key as [[|a key]|].
  - cbn [receive_sensor_data_io snd].
    split_and!; [answer_iff ltac:(by right; left)..|answer_status].
  - destruct (query_device_by_key db (String a key)) as [[i d]|] eqn:Hq.
    + destruct (receive_sensor_data_io_known db request a key clk io i d Hq)
        as [(Hb4 & Hb5 & detail & ->)
           |[(Hb1 & Hb4 & Hb5 & m & -> & ->)|(Hb1 & Hb4 & Hb5 & ->)]];
        cbn [snd];
        (split_and!;
         [answer_iff ltac:(first
            [ exists (String a key); split_and!; try done; right; by split
            | exists (String a key), i, d; by split_and! ])..
         |answer_status]).
    + destruct (receive_sensor_data_io_unknown db request a key clk io Hq)
        as [(Hb & detail & ->)|(Hb & ->)]; cbn [snd];
        (split_and!;
         [answer_iff ltac:(first
            [ right; right; exists (String a key); by split_and!
            | exists (String a key); split_and!; try done; by left ])..
         |answer_status]).
  - cbn [receive_sensor_data_io snd].
    split_and!; [answer_iff ltac:(by left)..|answer_status].
Qed.

Section Databases.
Variable upper : string → string.

(** The database left by a handler under any failure is one that the handler
    leaves under a failure of the flush or of COMMIT, or under none: what
    holds of the databases of [run] holds of the databases these handlers
    leave. *)
Lemma activate_device_io_database db request api_key clk io :
  fst (activate_device_io upper db request api_key clk io)
  = fst (activate_device upper db request api_key clk (as_fault io 2)).
Proof.
  unfold activate_device_io, activate_device, as_fault.
  destruct (query_code db (upper (ActivateRequest.code request))) as [[i c]|];
    [|by destruct (fails_at io 0)].
  destruct (ActivationCode.is_used c); [by destruct (fails_at io 0)|].
  destruct (query_device_by_mac db (ActivateRequest.mac_address request))
    as [[j d]|] eqn:Hm;
    [by destruct (fails_at io 0), (fails_at io 1)|].
  destruct (query_device_by_key db api_key) as [p|] eqn:Hk;
    failure_cases io;
    repeat first [progress simpl | rewrite Hm | rewrite Hk]; done.
Qed.

Lemma receive_sensor_data_io_database db request x_api_key clk io :
  fst (receive_sensor_data_io db request x_api_key clk io)
  = fst (receive_sensor_data db request x_api_key clk (as_fault io 1)).
Proof.
  unfold receive_sensor_data_io, receive_sensor_data, as_fault.
  destruct x_api_key as [[|a key]|]; [done| |done].
  destruct (query_device_by_key db (String a key)) as [[i d]|];
    [|by destruct (fails_at io 0)].
  failure_cases io; by simpl.
Qed.

Lemma create_activation_code_io_database db request clk io :
  fst (create_activation_code_io upper db request clk io)
  = fst (create_activation_code upper db request clk (as_fault io 1)).
Proof.
  unfold create_activation_code_io, create_activation_code, as_fault.
  destruct (query_code db (upper (CreateCodeRequest.code request))) as [p|] eqn:Hc;
    [by destruct (fails_at io 0)|].
  failure_cases io; repeat first [progress simpl | rewrite Hc]; done.
Qed.
End Databases.

Section Failures.
Variable upper : string → string.

End Failures.


